(** * xds-servicelb: the Service reconciler

    A shallow embedding of [internal/controller/service_controller.go] and of
    the exposure registry it drives, with the properties the design document
    states about them.

    Conventions.  Go's [int32] and [uint16] are [Z] with the conversions
    written out; a nil-able pointer is an [option]; a Go [map] is a [gmap];
    [(T, error)] is a [result].  Calls on the API client, the event recorder
    and the registry are recorded, in order, in the [World] that every
    effectful function threads through.

    One reconciliation is modelled as it runs on one worker: the cluster
    gives the same answer to the same question throughout, and no other
    worker writes to the registry in between.  What the Go runtime leaves
    open (the order in which a map is walked, the order [sort.Slice] gives to
    elements that compare equal) is left open here as well: see [GoLib]. *)

From Stdlib Require Import ZArith NArith Ascii String List Sorted Permutation Lia.
From Stdlib Require Import OrderedTypeEx.
From stdpp Require Import base tactics option list gmap strings sorting pretty.

Local Open Scope string_scope.
Local Open Scope Z_scope.
Local Open Scope list_scope.
Local Open Scope stdpp_scope.

(** ** Errors and results *)

Inductive error : Type :=
| ErrNotFound (name : string)          (* a client error for which k8serrors.IsNotFound holds *)
| ErrAPI (msg : string)                (* any other client error *)
| ErrServicePortNotFound               (* "service port not found, this should never happen" *)
| noValidNodeAddressError              (* "no valid node address found" *)
| ErrParseAddr (s : string)            (* netip.ParseAddr failed on s *)
| ErrParseDuration (s : string)        (* time.ParseDuration failed on s *)
| ErrParsePrefix (s : string).         (* netip.ParsePrefix failed on s *)

Inductive result (A : Type) : Type :=
| Ok (a : A)
| Err (e : error).
Arguments Ok {A} a.
Arguments Err {A} e.

#[global] Instance error_eq_dec : EqDecision error.
Proof. solve_decision. Defined.

Definition IsNotFound (err : error) : bool :=
  match err with ErrNotFound _ => true | _ => false end.

(* client.IgnoreNotFound *)
Definition IgnoreNotFound (err : error) : option error :=
  if IsNotFound err then None else Some err.

Definition is_Ok {A} (r : result A) : bool :=
  match r with Ok _ => true | Err _ => false end.

(** ** net/netip *)

Module netip.

(* An address is IPv4 (32 bits) or IPv6 (128 bits, with a zone).  The
   zero Addr is never produced by ParseAddr and is left out. *)
Inductive Addr : Type :=
| Addr4 (v : N)
| Addr6 (v : N) (zone : string).

Definition Is4 (ip : Addr) : bool :=
  match ip with Addr4 _ => true | Addr6 _ _ => false end.
Definition Is6 (ip : Addr) : bool :=
  match ip with Addr4 _ => false | Addr6 _ _ => true end.

Definition BitLen (ip : Addr) : N :=
  match ip with Addr4 _ => 32%N | Addr6 _ _ => 128%N end.

Definition value (ip : Addr) : N :=
  match ip with Addr4 v => v | Addr6 v _ => v end.

Definition Zone (ip : Addr) : string :=
  match ip with Addr4 _ => "" | Addr6 _ z => z end.

(* Addr.Compare: by bit length, then by the 128-bit value, then by zone *)
Definition Compare (ip ip2 : Addr) : comparison :=
  match N.compare (BitLen ip) (BitLen ip2) with
  | Lt => Lt
  | Gt => Gt
  | Eq =>
      match N.compare (value ip) (value ip2) with
      | Lt => Lt
      | Gt => Gt
      | Eq => if Is6 ip then String.compare (Zone ip) (Zone ip2) else Eq
      end
  end.

(* Addr.Less *)
Definition Less (ip ip2 : Addr) : bool :=
  match Compare ip ip2 with Lt => true | _ => false end.

(* AddrPort: an address with a uint16 port *)
Definition AddrPort : Type := Addr * Z.
Definition AddrPortFrom (ip : Addr) (port : Z) : AddrPort := (ip, port).

Record Prefix : Type := { Prefix_Addr : Addr; Prefix_Bits : Z }.

#[global] Instance Addr_eq_dec : EqDecision Addr.
Proof. solve_decision. Defined.

#[global] Instance Addr_countable : Countable Addr.
Proof.
  refine (inj_countable'
    (fun ip => match ip with Addr4 v => inl v | Addr6 v z => inr (v, z) end)
    (fun s => match s with inl v => Addr4 v | inr (v, z) => Addr6 v z end) _).
  intros []; reflexivity.
Defined.

#[global] Instance Prefix_eq_dec : EqDecision Prefix.
Proof. solve_decision. Defined.

End netip.

(* the conversion uint16(x) of an int32 *)
Definition uint16 (x : Z) : Z := x mod 65536.

(** ** k8s.io/api objects, restricted to the fields the controller reads *)

Module types.
Record NamespacedName : Type :=
  { Namespace : string; Name : string }.

#[global] Instance NamespacedName_eq_dec : EqDecision NamespacedName.
Proof. solve_decision. Defined.

#[global] Instance NamespacedName_countable : Countable NamespacedName.
Proof.
  refine (inj_countable' (fun k => (Namespace k, Name k))
                         (fun p => {| Namespace := p.1; Name := p.2 |}) _).
  intros []; reflexivity.
Defined.
End types.

Module intstr.
Inductive Type_ : Type := Int | String.
Record IntOrString : Type :=
  { Type' : Type_; IntVal : Z; StrVal : string }.
End intstr.

Module corev1.
Definition ProtocolTCP : string := "TCP".
Definition ProtocolUDP : string := "UDP".
Definition ServiceTypeLoadBalancer : string := "LoadBalancer".

Record ServicePort : Type :=
  { Port_Name : string;
    Protocol : string;
    Port : Z;
    TargetPort : intstr.IntOrString;
    NodePort : Z }.

Record LoadBalancerIngress : Type :=
  { IP : string; Hostname : string }.

Record Service : Type :=
  { Namespace : string;
    Name : string;
    Annotations : gmap string string;
    Spec_Type : string;
    Spec_LoadBalancerClass : option string;
    Spec_Ports : list ServicePort;
    Spec_LoadBalancerSourceRanges : list string;
    Status_LoadBalancer_Ingress : list LoadBalancerIngress }.

Record NodeAddress : Type :=
  { Type' : string; Address : string }.

Record Node : Type :=
  { Status_Addresses : list NodeAddress }.
End corev1.

Module discoveryv1.
Definition AddressTypeIPv4 : string := "IPv4".
Definition AddressTypeIPv6 : string := "IPv6".

Record EndpointPort : Type :=
  { Name : option string; Port : option Z }.

Record Endpoint : Type :=
  { Addresses : list string;
    Conditions_Ready : option bool;
    NodeName : option string }.

Record EndpointSlice : Type :=
  { AddressType : string;
    Ports : list EndpointPort;
    Endpoints : list Endpoint }.
End discoveryv1.

(** ** package graph: the values exchanged with the registry *)

Module graph.
(* k8s.io/utils/net Protocol is a string type *)
Definition TCP : string := "TCP".
Definition UDP : string := "UDP".

(** Modelled from the spec: the data types of package [graph], which is not
    part of the sources at hand; the fields are those the controller fills
    in.  A ServicePort is a port number with a protocol. *)
Record ServicePort : Type :=
  { Port : Z; Protocol : string }.

(** Modelled from the spec: one destination, an address and port with a
    protocol. *)
Record ServiceEndpoint : Type :=
  { AddrPort : netip.AddrPort; Endpoint_Protocol : string }.

(** Modelled from the spec: what is stored for one claimed port. *)
Record ServicePortData : Type :=
  { Endpoints : list ServiceEndpoint;
    UseProxyProtocol : bool;
    IdleTimeout : option Z;
    AllowedIPRanges : list netip.Prefix }.

#[global] Instance ServicePort_eq_dec : EqDecision ServicePort.
Proof. solve_decision. Defined.

#[global] Instance ServicePort_countable : Countable ServicePort.
Proof.
  refine (inj_countable' (fun p => (Port p, Protocol p))
                         (fun p => {| Port := p.1; Protocol := p.2 |}) _).
  intros []; reflexivity.
Defined.

(** Modelled from the spec: the exposure data of one Service, a map from
    its ports to their data. *)
Record ServiceData : Type :=
  { Ports : gmap ServicePort ServicePortData }.

(** Modelled from the spec: [NewServiceData], the data with no port yet. *)
Definition NewServiceData : ServiceData := {| Ports := ∅ |}.
End graph.

(** ** package internal: the process configuration *)

Module internal.
(** Modelled from the spec: the type of [Config.AddressSource], declared in
    package [internal], which is not part of the sources at hand; the design
    document gives the two modes {Node, Pod}. *)
Inductive AddressSource : Type := AddressSourceNode | AddressSourcePod.

(** Modelled from the spec: an entry of [Config.IngressStatus], declared in
    package [internal]: an IP (nil when absent) or a hostname. *)
Record IngressAddress : Type :=
  { IP : option (list Z); Hostname : string }.

(** Modelled from the spec: [internal.Config], restricted to the fields the
    controller reads. *)
Record Config : Type :=
  { LoadBalancerClass : string;
    AddressSource' : AddressSource;
    NodeAddressType : string;
    UseIPv6Endpoints : bool;
    IngressStatus : list IngressAddress }.

#[global] Instance AddressSource_eq_dec : EqDecision AddressSource.
Proof. solve_decision. Defined.
End internal.

Definition proxyProtocolAnnotation : string :=
  "xds-servicelb.eplight.org/use-proxy-protocol".
Definition idleTimeoutAnnotation : string :=
  "xds-servicelb.eplight.org/idle-timeout".

(** ** What the Go runtime and standard library contribute

    The parsers are the library's; iterating over a map yields its entries
    in an order the runtime chooses anew each time, and [sort.Slice] is not
    stable.  The controller is verified against every library that meets
    this interface. *)

Record StrictWeakOrder {A : Type} (less : A → A → bool) : Prop :=
  { swo_irrefl : ∀ x, less x x = false;
    swo_trans : ∀ x y z, less x y = true → less y z = true → less x z = true;
    swo_incomp : ∀ x y z, less x y = false → less y z = false → less x z = false }.

(* "not less than the element before": what a sorted slice satisfies *)
Definition notAfter {A : Type} (less : A → A → bool) (x y : A) : Prop :=
  less y x = false.

Class GoLib : Type :=
  { ParseAddr : string → option netip.Addr;
    ParsePrefix : string → option netip.Prefix;
    ParseDuration : string → option Z;
    IP_String : list Z → string;
    (* the n-th [range] over a map, given the entries of the map *)
    mapRange : ∀ {K V : Type}, nat → list (K * V) → list (K * V);
    mapRange_perm : ∀ (K V : Type) (n : nat) (l : list (K * V)),
        mapRange n l ≡ₚ l;
    sortSlice : ∀ {A : Type}, (A → A → bool) → list A → list A;
    sortSlice_perm : ∀ (A : Type) (less : A → A → bool) (l : list A),
        sortSlice less l ≡ₚ l;
    sortSlice_sorted : ∀ (A : Type) (less : A → A → bool) (l : list A),
        StrictWeakOrder less → StronglySorted (notAfter less) (sortSlice less l) }.

(* time.Minute, in nanoseconds *)
Definition time_Minute : Z := 60000000000.

Module ctrl.
Record Result : Type := { RequeueAfter : Z }.
Definition empty : Result := {| RequeueAfter := 0 |}.
End ctrl.

(** ** The API client: what the cluster answers *)

Module client.
Record Client : Type :=
  { GetService : types.NamespacedName → result corev1.Service;
    GetNode : string → result corev1.Node;
    (* List of EndpointSlices in a namespace carrying the service-name label *)
    ListEndpointSlices : string → string → result (list discoveryv1.EndpointSlice);
    StatusUpdate : corev1.Service → option error }.
End client.

(** ** The registry, as the controller sees it *)

(** Modelled from the spec: the operations of [graph.ServiceGraph] that the
    controller calls, and [ServicePort.String]; package [graph] is not part
    of the sources at hand.  [Conflicts] is a pure read; the other two
    return the registry they leave.  The controller is verified against
    every registry with this interface. *)
Class ServiceGraph (G : Type) : Type :=
  { Conflicts : G → types.NamespacedName → graph.ServicePort → bool;
    UpdateService : G → types.NamespacedName → graph.ServiceData → G;
    RemoveService : G → types.NamespacedName → G;
    ServicePort_String : graph.ServicePort → string }.

(** ** Effects *)

Inductive Call : Type :=
| CallGetService (key : types.NamespacedName)
| CallGetNode (name : string)
| CallListEndpointSlices (namespace serviceName : string)
| CallStatusUpdate (svc : corev1.Service)
| CallEventf (svc : corev1.Service) (eventtype reason messageFmt : string)
             (args : list string)
| CallConflicts (key : types.NamespacedName) (port : graph.ServicePort)
| CallUpdateService (key : types.NamespacedName) (data : graph.ServiceData)
| CallRemoveService (key : types.NamespacedName).

Record World (G : Type) : Type :=
  { w_graph : G;              (* the registry *)
    w_calls : list Call;      (* calls made so far, oldest first *)
    w_ranges : nat }.         (* map iterations started so far *)
Arguments w_graph {G} _.
Arguments w_calls {G} _.
Arguments w_ranges {G} _.

(* state passing with errors; effects made before an error persist *)
Definition M (G A : Type) : Type := World G → result A * World G.

#[global] Instance M_ret {G} : MRet (M G) := λ A a w, (Ok a, w).
#[global] Instance M_bind {G} : MBind (M G) := λ A B f m w,
  match m w with
  | (Ok a, w') => f a w'
  | (Err e, w') => (Err e, w')
  end.

Definition throw {G A} (e : error) : M G A := λ w, (Err e, w).

(* run m and hand its (value, error) pair to the caller *)
Definition attempt {G A} (m : M G A) : M G (result A) := λ w,
  let (r, w') := m w in (Ok r, w').

Definition liftResult {G A} (r : result A) : M G A := λ w, (r, w).

Definition call {G} (c : Call) : M G unit := λ w,
  (Ok tt, {| w_graph := w_graph w; w_calls := w_calls w ++ [c];
             w_ranges := w_ranges w |}).

Definition getGraph {G} : M G G := λ w, (Ok (w_graph w), w).

Definition setGraph {G} (g : G) : M G unit := λ w,
  (Ok tt, {| w_graph := g; w_calls := w_calls w; w_ranges := w_ranges w |}).

(* [for _, x := range l { s = body(s, x) }]; the body returns the state
   unchanged for [continue] and throws for [return nil, err] *)
Fixpoint forRange {G S A} (body : S → A → M G S) (s : S) (l : list A) : M G S :=
  match l with
  | [] => mret s
  | x :: l' => s' ← body s x; forRange body s' l'
  end.

(* a loop whose body may [return v] from the enclosing function *)
Fixpoint forReturn {G A R} (body : A → M G (option R)) (l : list A)
  : M G (option R) :=
  match l with
  | [] => mret None
  | x :: l' =>
      o ← body x;
      match o with
      | Some v => mret (Some v)
      | None => forReturn body l'
      end
  end.

(* [for ip, ready := range m]: the entries, in the order the runtime picks *)
Definition rangeMap {G} `{GoLib} `{Countable K} {V} (m : gmap K V)
  : M G (list (K * V)) := λ w,
  (Ok (mapRange (w_ranges w) (map_to_list m)),
   {| w_graph := w_graph w; w_calls := w_calls w;
      w_ranges := S (w_ranges w) |}).

(** ** package controller *)

(* ServiceReconciler; its registry and its event recorder are in the World *)
Record ServiceReconciler : Type :=
  { Client : client.Client;
    config : internal.Config }.

Section Controller.
Context {G : Type} {SG : ServiceGraph G} {L : GoLib}.
Variable r : ServiceReconciler.

Local Abbreviation Mg := (M G).

(* r.Get(ctx, req.NamespacedName, &svc) *)
Definition Get_Service (key : types.NamespacedName) : Mg corev1.Service :=
  call (CallGetService key);; liftResult (client.GetService (Client r) key).

(* r.Get(ctx, types.NamespacedName{Name: nodeName}, &node) *)
Definition Get_Node (nodeName : string) : Mg corev1.Node :=
  call (CallGetNode nodeName);; liftResult (client.GetNode (Client r) nodeName).

(* r.List(ctx, &esList, InNamespace(ns), MatchingLabels{LabelServiceName: name}) *)
Definition List_EndpointSlices (ns name : string)
  : Mg (list discoveryv1.EndpointSlice) :=
  call (CallListEndpointSlices ns name);;
  liftResult (client.ListEndpointSlices (Client r) ns name).

(* r.Status().Update(ctx, svc) *)
Definition Status_Update (svc : corev1.Service) : Mg unit :=
  call (CallStatusUpdate svc);;
  match client.StatusUpdate (Client r) svc with
  | Some err => throw err
  | None => mret tt
  end.

(* r.recorder.Eventf *)
Definition Eventf (svc : corev1.Service) (eventtype reason messageFmt : string)
    (args : list string) : Mg unit :=
  call (CallEventf svc eventtype reason messageFmt args).

(* r.graph.Conflicts *)
Definition graph_Conflicts (key : types.NamespacedName) (port : graph.ServicePort)
  : Mg bool :=
  call (CallConflicts key port);;
  g ← getGraph; mret (Conflicts g key port).

(* r.graph.UpdateService *)
Definition graph_UpdateService (key : types.NamespacedName)
    (data : graph.ServiceData) : Mg unit :=
  call (CallUpdateService key data);;
  g ← getGraph; setGraph (UpdateService g key data).

(* r.graph.RemoveService *)
Definition graph_RemoveService (key : types.NamespacedName) : Mg unit :=
  call (CallRemoveService key);;
  g ← getGraph; setGraph (RemoveService g key).

(** *** shouldManage *)

Definition shouldManage (svc : corev1.Service) : bool :=
  if negb (String.eqb (corev1.Spec_Type svc) corev1.ServiceTypeLoadBalancer)
  then false
  else
    let svcClass := default "" (corev1.Spec_LoadBalancerClass svc) in
    if negb (String.eqb svcClass (internal.LoadBalancerClass (config r)))
    then false
    else true.

(** *** getServicePorts *)

Fixpoint getServicePorts_loop (ps : list corev1.ServicePort)
    (ports : list graph.ServicePort) : list graph.ServicePort :=
  match ps with
  | [] => ports
  | port :: ps' =>
      if String.eqb (corev1.Protocol port) corev1.ProtocolTCP then
        getServicePorts_loop ps'
          (ports ++ [ {| graph.Port := corev1.Port port; graph.Protocol := graph.TCP |} ])
      else if String.eqb (corev1.Protocol port) corev1.ProtocolUDP then
        getServicePorts_loop ps'
          (ports ++ [ {| graph.Port := corev1.Port port; graph.Protocol := graph.UDP |} ])
      else getServicePorts_loop ps' ports
  end.

Definition getServicePorts (svc : corev1.Service) : list graph.ServicePort :=
  getServicePorts_loop (corev1.Spec_Ports svc) [].

(** *** getNodeAddress *)

(* the loop over node.Status.Addresses, with its two [continue]s and its
   two [return &ip, nil] *)
Fixpoint getNodeAddress_loop (addrs : list corev1.NodeAddress)
  : result netip.Addr :=
  match addrs with
  | [] => Err noValidNodeAddressError
  | addr :: addrs' =>
      if negb (String.eqb (corev1.Type' addr) (internal.NodeAddressType (config r)))
      then getNodeAddress_loop addrs'
      else
        match ParseAddr (corev1.Address addr) with
        | None => getNodeAddress_loop addrs'
        | Some ip =>
            if internal.UseIPv6Endpoints (config r) && netip.Is6 ip then Ok ip
            else if negb (internal.UseIPv6Endpoints (config r)) && netip.Is4 ip
            then Ok ip
            else getNodeAddress_loop addrs'
        end
  end.

Definition getNodeAddress (nodeName : string) : Mg netip.Addr :=
  node ← Get_Node nodeName;
  liftResult (getNodeAddress_loop (corev1.Status_Addresses node)).

(** *** buildEndpoints *)

(* the first Service port with this number and protocol *)
Fixpoint findServicePort (sps : list corev1.ServicePort) (port : graph.ServicePort)
  : option corev1.ServicePort :=
  match sps with
  | [] => None
  | sp :: sps' =>
      if Z.eqb (corev1.Port sp) (graph.Port port)
         && String.eqb (corev1.Protocol sp) (graph.Protocol port)
      then Some sp
      else findServicePort sps' port
  end.

(* the first slice port whose name is the Service port's *)
Fixpoint findEndpointPort (epps : list discoveryv1.EndpointPort)
    (svcPort : corev1.ServicePort) : option discoveryv1.EndpointPort :=
  match epps with
  | [] => None
  | epp :: epps' =>
      if match discoveryv1.Name epp with
         | Some n => String.eqb (corev1.Port_Name svcPort) n
         | None => String.eqb (corev1.Port_Name svcPort) ""
         end
      then Some epp
      else findEndpointPort epps' svcPort
  end.

(* es.AddressType agrees with the configured family *)
Definition familySelected (es : discoveryv1.EndpointSlice) : bool :=
  (String.eqb (discoveryv1.AddressType es) discoveryv1.AddressTypeIPv6
   && internal.UseIPv6Endpoints (config r))
  || (String.eqb (discoveryv1.AddressType es) discoveryv1.AddressTypeIPv4
      && negb (internal.UseIPv6Endpoints (config r))).

(* the value of *epPort.Port once the slice is past its [continue]s *)
Definition slicePort (svcPort : corev1.ServicePort)
    (es : discoveryv1.EndpointSlice) : option Z :=
  if negb (familySelected es) then None
  else
    match findEndpointPort (discoveryv1.Ports es) svcPort with
    | None => None
    | Some epPort =>
        match discoveryv1.Port epPort with
        | Some p => Some p
        | None =>
            match intstr.Type' (corev1.TargetPort svcPort) with
            | intstr.String => None
            | intstr.Int => Some (intstr.IntVal (corev1.TargetPort svcPort))
            end
        end
    end.

Definition endpointReady (ep : discoveryv1.Endpoint) : bool :=
  match discoveryv1.Conditions_Ready ep with
  | Some b => b
  | None => true
  end.

(* body of [for _, addr := range ep.Addresses] *)
Definition addressBody (epPortPort : Z) (ready : bool)
    (ips : gmap netip.AddrPort bool) (addr : string)
  : Mg (gmap netip.AddrPort bool) :=
  match ParseAddr addr with
  | None => throw (ErrParseAddr addr)
  | Some ip => mret (<[netip.AddrPortFrom ip (uint16 epPortPort) := ready]> ips)
  end.

(* body of [for _, ep := range es.Endpoints] *)
Definition endpointBody (svcPort : corev1.ServicePort) (epPortPort : Z)
    (ips : gmap netip.AddrPort bool) (ep : discoveryv1.Endpoint)
  : Mg (gmap netip.AddrPort bool) :=
  let ready := endpointReady ep in
  if decide (internal.AddressSource' (config r) = internal.AddressSourceNode) then
    match discoveryv1.NodeName ep with
    | Some nodeName =>
        if negb (Z.eqb (corev1.NodePort svcPort) 0) then
          res ← attempt (getNodeAddress nodeName);
          match res with
          | Err _ => mret ips
          | Ok ip =>
              mret (<[netip.AddrPortFrom ip (uint16 (corev1.NodePort svcPort)) := ready]> ips)
          end
        else mret ips
    | None => mret ips
    end
  else forRange (addressBody epPortPort ready) ips (discoveryv1.Addresses ep).

(* body of [for _, es := range esList.Items] *)
Definition sliceBody (svcPort : corev1.ServicePort)
    (ips : gmap netip.AddrPort bool) (es : discoveryv1.EndpointSlice)
  : Mg (gmap netip.AddrPort bool) :=
  match slicePort svcPort es with
  | None => mret ips
  | Some epPortPort =>
      forRange (endpointBody svcPort epPortPort) ips (discoveryv1.Endpoints es)
  end.

(* the code up to the map [ips] being complete *)
Definition collectEndpoints (svc : corev1.Service) (port : graph.ServicePort)
  : Mg (gmap netip.AddrPort bool) :=
  match findServicePort (corev1.Spec_Ports svc) port with
  | None => throw ErrServicePortNotFound
  | Some svcPort =>
      items ← List_EndpointSlices (corev1.Namespace svc) (corev1.Name svc);
      forRange (sliceBody svcPort) ∅ items
  end.

Definition lessByAddr (a b : netip.AddrPort) : bool :=
  netip.Less a.1 b.1.

(* from the complete map to the returned slice *)
Definition orderEndpoints (port : graph.ServicePort)
    (ips : gmap netip.AddrPort bool) : Mg (list graph.ServiceEndpoint) :=
  entries ← rangeMap ips;
  let ipList := (filter (λ e, e.2 = true) entries).*1 in
  let ipList := sortSlice lessByAddr ipList in
  mret ((λ ip, {| graph.AddrPort := ip;
                  graph.Endpoint_Protocol := graph.Protocol port |}) <$> ipList).

Definition buildEndpoints (svc : corev1.Service) (port : graph.ServicePort)
  : Mg (list graph.ServiceEndpoint) :=
  ips ← collectEndpoints svc port;
  orderEndpoints port ips.

(** *** buildServiceData *)

(* svc.Annotations[key]: the empty string when the key is absent *)
Definition annotation (svc : corev1.Service) (key : string) : string :=
  default "" (corev1.Annotations svc !! key).

Definition parseIdleTimeout (svc : corev1.Service) : result (option Z) :=
  if negb (String.eqb (annotation svc idleTimeoutAnnotation) "") then
    match ParseDuration (annotation svc idleTimeoutAnnotation) with
    | None => Err (ErrParseDuration (annotation svc idleTimeoutAnnotation))
    | Some dur => Ok (Some dur)
    end
  else Ok None.

(* body of [for _, ip := range svc.Spec.LoadBalancerSourceRanges] *)
Definition sourceRangeBody (allowedIPRanges : list netip.Prefix) (ip : string)
  : Mg (list netip.Prefix) :=
  match ParsePrefix ip with
  | None => throw (ErrParsePrefix ip)
  | Some prefix => mret (allowedIPRanges ++ [prefix])
  end.

(* body of [for _, port := range ports] *)
Definition portBody (svc : corev1.Service) (useProxyProtocol : bool)
    (idleTimeout : option Z) (allowedIPRanges : list netip.Prefix)
    (data : graph.ServiceData) (port : graph.ServicePort) : Mg graph.ServiceData :=
  endpoints ← buildEndpoints svc port;
  mret {| graph.Ports :=
            <[port := {| graph.Endpoints := endpoints;
                         graph.UseProxyProtocol := useProxyProtocol;
                         graph.IdleTimeout := idleTimeout;
                         graph.AllowedIPRanges := allowedIPRanges |}]>
              (graph.Ports data) |}.

Definition buildServiceData (svc : corev1.Service) (ports : list graph.ServicePort)
  : Mg graph.ServiceData :=
  let useProxyProtocol := String.eqb (annotation svc proxyProtocolAnnotation) "true" in
  idleTimeout ← liftResult (parseIdleTimeout svc);
  allowedIPRanges ←
    (if decide (0 < length (corev1.Spec_LoadBalancerSourceRanges svc))%nat
     then forRange sourceRangeBody [] (corev1.Spec_LoadBalancerSourceRanges svc)
     else mret []);
  forRange (portBody svc useProxyProtocol idleTimeout allowedIPRanges)
           graph.NewServiceData ports.

(** *** updateStatus *)

Definition ingressOf (addr : internal.IngressAddress) : corev1.LoadBalancerIngress :=
  match internal.IP addr with
  | Some ip => {| corev1.IP := IP_String ip; corev1.Hostname := "" |}
  | None => {| corev1.IP := ""; corev1.Hostname := internal.Hostname addr |}
  end.

(* svc.Status.LoadBalancer.Ingress = ing *)
Definition setIngress (svc : corev1.Service) (ing : list corev1.LoadBalancerIngress)
  : corev1.Service :=
  {| corev1.Namespace := corev1.Namespace svc;
     corev1.Name := corev1.Name svc;
     corev1.Annotations := corev1.Annotations svc;
     corev1.Spec_Type := corev1.Spec_Type svc;
     corev1.Spec_LoadBalancerClass := corev1.Spec_LoadBalancerClass svc;
     corev1.Spec_Ports := corev1.Spec_Ports svc;
     corev1.Spec_LoadBalancerSourceRanges := corev1.Spec_LoadBalancerSourceRanges svc;
     corev1.Status_LoadBalancer_Ingress := ing |}.

Definition updateStatus (svc : corev1.Service) : Mg unit :=
  let ing := ingressOf <$> internal.IngressStatus (config r) in
  Status_Update (setIngress svc ing).

(** *** Reconcile *)

Definition conflictMessage : string :=
  "Service could not be allocated due to a conflicting port %v".

(* body of [for _, port := range ports] in Reconcile *)
Definition conflictBody (req : types.NamespacedName) (svc : corev1.Service)
    (port : graph.ServicePort) : Mg (option ctrl.Result) :=
  c ← graph_Conflicts req port;
  if c : bool then
    Eventf svc "Warning" "Conflict" conflictMessage [ServicePort_String port];;
    mret (Some {| ctrl.RequeueAfter := 1 * time_Minute |})
  else mret None.

(* [Err e] stands for the return value (ctrl.Result{}, e) *)
Definition Reconcile (req : types.NamespacedName) : Mg ctrl.Result :=
  got ← attempt (Get_Service req);
  match got with
  | Err err =>
      (if IsNotFound err then graph_RemoveService req else mret tt);;
      match IgnoreNotFound err with
      | Some err' => throw err'
      | None => mret ctrl.empty
      end
  | Ok svc =>
      if negb (shouldManage svc) then mret ctrl.empty
      else
        let ports := getServicePorts svc in
        conflict ← forReturn (conflictBody req svc) ports;
        match conflict with
        | Some requeue => mret requeue
        | None =>
            data ← buildServiceData svc ports;
            graph_UpdateService req data;;
            updateStatus svc;;
            mret ctrl.empty
        end
  end.

End Controller.

(** ** The watch on EndpointSlices *)

Module metav1.
(* what findServiceForEndpoint reads of the client.Object it is given:
   GetNamespace() and GetLabels() *)
Record Object : Type :=
  { Namespace : string; Labels : gmap string string }.
End metav1.

(* discoveryv1.LabelServiceName *)
Definition LabelServiceName : string := "kubernetes.io/service-name".

(* findServiceForEndpoint; a reconcile.Request is given by its NamespacedName *)
Definition findServiceForEndpoint (endpointSlice : metav1.Object)
  : list types.NamespacedName :=
  let svcName := default "" (metav1.Labels endpointSlice !! LabelServiceName) in
  if String.eqb svcName "" then []
  else [ {| types.Namespace := metav1.Namespace endpointSlice;
            types.Name := svcName |} ].

(** ** The exposure registry *)

Module registry.

(** Modelled from the spec: the registry state of package [graph], which is
    not part of the sources at hand: the owners map, the ownership index
    derived from it, and the version counter. *)
Record State : Type :=
  { owners : gmap types.NamespacedName graph.ServiceData;
    index : gmap graph.ServicePort types.NamespacedName;
    version : Z }.

(** Modelled from the spec: the registry starts empty. *)
Definition empty : State :=
  {| owners := ∅; index := ∅; version := 0 |}.

(** Modelled from the spec: [Conflicts(owner, port)] is true iff [port] is
    currently claimed by some key other than [owner]. *)
Definition Conflicts (g : State) (owner : types.NamespacedName)
    (port : graph.ServicePort) : bool :=
  match index g !! port with
  | Some k => bool_decide (k ≠ owner)
  | None => false
  end.

(** Modelled from the spec: step (a) of [UpdateService], the re-validation
    at commit time that no port of [data] is claimed by a different owner. *)
Definition commitConflict (g : State) (owner : types.NamespacedName)
    (data : graph.ServiceData) : bool :=
  bool_decide (∃ port, port ∈ dom (graph.Ports data) ∧ Conflicts g owner port = true).

(** Modelled from the spec: step (b) of [UpdateService], releasing every port
    held by [owner] that is absent from the new data. *)
Definition release (owner : types.NamespacedName) (data : graph.ServiceData)
    (ix : gmap graph.ServicePort types.NamespacedName)
  : gmap graph.ServicePort types.NamespacedName :=
  filter (λ pk, ¬ (pk.2 = owner ∧ graph.Ports data !! pk.1 = None)) ix.

(** Modelled from the spec: step (c) of [UpdateService], claiming every port
    of the data for [owner]. *)
Definition claim (owner : types.NamespacedName) (data : graph.ServiceData)
    (ix : gmap graph.ServicePort types.NamespacedName)
  : gmap graph.ServicePort types.NamespacedName :=
  ((λ _, owner) <$> graph.Ports data) ∪ ix.

(** Modelled from the spec: [UpdateService(owner, data)] rejects the update
    when a port of [data] is claimed by a different owner; otherwise it
    releases, claims, replaces the owner's data wholesale and bumps the
    version, as one step. *)
Definition UpdateService (g : State) (owner : types.NamespacedName)
    (data : graph.ServiceData) : State :=
  if commitConflict g owner data then g
  else
    {| owners := <[owner := data]> (owners g);
       index := claim owner data (release owner data (index g));
       version := version g + 1 |}.

(** Modelled from the spec: [RemoveService(owner)] deletes the owner's entry
    and releases all ports it held; removing an absent owner is a no-op. *)
Definition RemoveService (g : State) (owner : types.NamespacedName) : State :=
  match owners g !! owner with
  | None => g
  | Some _ =>
      {| owners := delete owner (owners g);
         index := filter (λ pk, pk.2 ≠ owner) (index g);
         version := version g + 1 |}
  end.

(** Modelled from the spec: how a port is named in the warning event; the
    design document only asks that the message names the port. *)
Definition ServicePort_String (p : graph.ServicePort) : string :=
  pretty (graph.Port p) +:+ "/" +:+ graph.Protocol p.

End registry.

#[global] Instance registry_ServiceGraph : ServiceGraph registry.State :=
  {| Conflicts := registry.Conflicts;
     UpdateService := registry.UpdateService;
     RemoveService := registry.RemoveService;
     ServicePort_String := registry.ServicePort_String |}.

(** ** A reference Go library

    An executable instance of [GoLib], used to run the controller on
    concrete clusters.  [ParseAddr] covers dotted-quad IPv4 and colon-hex
    IPv6 (with [::] and a zone; an IPv6 text with a dotted-quad tail is
    rejected here), [ParsePrefix] the form address/bits, [ParseDuration] a
    single decimal number followed by one unit.  [sortSlice] is the insertion
    sort that [sort.Slice] runs on slices of at most 12 elements. *)

Module goref.

Definition digitVal (c : ascii) : option Z :=
  let n := Z.of_N (Ascii.N_of_ascii c) in
  if (48 <=? n) && (n <=? 57) then Some (n - 48) else None.

Definition hexVal (c : ascii) : option Z :=
  let n := Z.of_N (Ascii.N_of_ascii c) in
  if (48 <=? n) && (n <=? 57) then Some (n - 48)
  else if (97 <=? n) && (n <=? 102) then Some (n - 87)
  else if (65 <=? n) && (n <=? 70) then Some (n - 55)
  else None.

(* the value of a non-empty string of digits in the given base *)
Fixpoint digitsFrom (val : ascii → option Z) (base : Z) (acc : Z) (s : string)
  : option Z :=
  match s with
  | EmptyString => Some acc
  | String c s' =>
      match val c with
      | Some d => digitsFrom val base (acc * base + d) s'
      | None => None
      end
  end.

Definition number (val : ascii → option Z) (base : Z) (s : string) : option Z :=
  match s with
  | EmptyString => None
  | _ => digitsFrom val base 0 s
  end.

(* the pieces of s between occurrences of sep *)
Fixpoint splitOn (sep : ascii) (s : string) : list string :=
  match s with
  | EmptyString => [EmptyString]
  | String c s' =>
      if Ascii.eqb c sep then EmptyString :: splitOn sep s'
      else
        match splitOn sep s' with
        | piece :: pieces => String c piece :: pieces
        | [] => [String c EmptyString]
        end
  end.

Fixpoint mapOption {A B} (f : A → option B) (l : list A) : option (list B) :=
  match l with
  | [] => Some []
  | x :: l' =>
      match f x, mapOption f l' with
      | Some y, Some ys => Some (y :: ys)
      | _, _ => None
      end
  end.

(* one IPv4 field: digits, no leading zero, at most 255 *)
Definition octet (s : string) : option Z :=
  match s with
  | String "0"%char (String _ _) => None
  | _ =>
      match number digitVal 10 s with
      | Some v => if (String.length s <=? 3)%nat && (v <=? 255) then Some v else None
      | None => None
      end
  end.

Definition parseIPv4 (s : string) : option netip.Addr :=
  match mapOption octet (splitOn "."%char s) with
  | Some [a; b; c; d] =>
      Some (netip.Addr4 (Z.to_N (((a * 256 + b) * 256 + c) * 256 + d)))
  | _ => None
  end.

(* one IPv6 group: one to four hex digits *)
Definition group (s : string) : option Z :=
  if (String.length s <=? 4)%nat then number hexVal 16 s else None.

Definition groupsValue (gs : list Z) : Z :=
  fold_left (λ acc g, acc * 65536 + g) gs 0.

(* the pieces between colons; a leading "::" leaves one empty piece in
   front, a lone leading colon is refused *)
Definition leadingPieces (text : string) : option (list string) :=
  match text with
  | String ":" (String ":" EmptyString) => Some [EmptyString]
  | String ":" (String ":" rest) => Some (EmptyString :: splitOn ":" rest)
  | String ":" _ => None
  | _ => Some (splitOn ":" text)
  end%char.

(* a trailing "::" leaves two empty pieces at the end: keep one; a lone
   trailing colon is refused *)
Definition trailingPieces (pieces : list string) : option (list string) :=
  match rev pieces with
  | [EmptyString] => Some pieces
  | EmptyString :: EmptyString :: rest => Some (rev (EmptyString :: rest))
  | EmptyString :: _ => None
  | _ => Some pieces
  end.

(* the pieces before and after the first empty piece, if there is one *)
Fixpoint splitEllipsis (pieces : list string)
  : list string * option (list string) :=
  match pieces with
  | [] => ([], None)
  | EmptyString :: rest => ([], Some rest)
  | p :: rest => let (a, b) := splitEllipsis rest in (p :: a, b)
  end.

Definition parseIPv6Text (text zone : string) : option netip.Addr :=
  pieces ← leadingPieces text;
  pieces ← trailingPieces pieces;
  match splitEllipsis pieces with
  | (before, None) =>
      gs ← mapOption group before;
      if decide (length gs = 8%nat)
      then Some (netip.Addr6 (Z.to_N (groupsValue gs)) zone)
      else None
  | (before, Some after) =>
      gb ← mapOption group before;
      ga ← mapOption group after;
      if decide (length gb + length ga < 8)%nat
      then Some (netip.Addr6
                   (Z.to_N (groupsValue
                      (gb ++ replicate (8 - length gb - length ga) 0 ++ ga)))
                   zone)
      else None
  end.

Definition parseIPv6 (s : string) : option netip.Addr :=
  match splitOn "%" s with
  | [text] => parseIPv6Text text EmptyString
  | text :: zone =>
      (* everything after the first '%' is the zone, which is not empty *)
      let zone := String.concat "%" zone in
      if String.eqb zone EmptyString then None else parseIPv6Text text zone
  | [] => None
  end.

(* dispatch on the first of '.', ':' and '%' *)
Fixpoint parseAddrFrom (whole rest : string) : option netip.Addr :=
  match rest with
  | EmptyString => None
  | String c rest' =>
      if Ascii.eqb c "."%char then parseIPv4 whole
      else if Ascii.eqb c ":"%char then parseIPv6 whole
      else if Ascii.eqb c "%"%char then None
      else parseAddrFrom whole rest'
  end.

Definition parseAddr (s : string) : option netip.Addr := parseAddrFrom s s.

Definition parsePrefix (s : string) : option netip.Prefix :=
  match rev (splitOn "/"%char s) with
  | bitsStr :: (_ :: _) as front =>
      ip ← parseAddr (String.concat "/" (rev front));
      if netip.Is6 ip && negb (String.eqb (netip.Zone ip) EmptyString) then None
      else
        match bitsStr with
        | String "0"%char (String _ _) => None
        | _ =>
            bits ← number digitVal 10 bitsStr;
            if bits <=? (if netip.Is6 ip then 128 else 32)
            then Some {| netip.Prefix_Addr := ip; netip.Prefix_Bits := bits |}
            else None
        end
  | _ => None
  end.

(* nanoseconds in a unit *)
Definition unitValue (u : string) : option Z :=
  if String.eqb u "ns" then Some 1
  else if String.eqb u "us" then Some 1000
  else if String.eqb u "ms" then Some 1000000
  else if String.eqb u "s" then Some 1000000000
  else if String.eqb u "m" then Some 60000000000
  else if String.eqb u "h" then Some 3600000000000
  else None.

(* the leading digits of s and what follows them *)
Fixpoint spanDigits (s : string) : string * string :=
  match s with
  | EmptyString => (EmptyString, EmptyString)
  | String c s' =>
      match digitVal c with
      | Some _ => let (ds, rest) := spanDigits s' in (String c ds, rest)
      | None => (EmptyString, s)
      end
  end.

Definition parseDuration (s : string) : option Z :=
  if String.eqb s "0" then Some 0
  else
    let (ds, u) := spanDigits s in
    v ← number digitVal 10 ds;
    k ← unitValue u;
    if v * k <? 2 ^ 63 then Some (v * k) else None.

(* net.IP.String on four bytes; other lengths are not rendered here *)
Definition ipString (ip : list Z) : string :=
  match ip with
  | [a; b; c; d] => pretty a +:+ "." +:+ pretty b +:+ "." +:+ pretty c +:+ "." +:+ pretty d
  | _ => "?"
  end.

(* insertionSortLessFunc: element i moves towards the front while it is less
   than its predecessor.  [rp] is the sorted prefix, last element first. *)
Fixpoint insertBack {A} (less : A → A → bool) (x : A) (rp : list A) : list A :=
  match rp with
  | [] => [x]
  | y :: rp' => if less x y then y :: insertBack less x rp' else x :: rp
  end.

Definition insertionSort {A} (less : A → A → bool) (l : list A) : list A :=
  rev (fold_left (λ rp x, insertBack less x rp) l []).

End goref.

(** * The vocabulary of the properties *)

(** ** The resolver as a list of map writes

    The map [ips] that [buildEndpoints] fills is described by the writes made
    to it, in order: [serviceWrites] lists them without the effects, and
    [collectEndpoints_writes] below shows that the code performs exactly
    these. *)

Definition result_map {A B} (f : A → B) (x : result A) : result B :=
  match x with
  | Ok a => Ok (f a)
  | Err e => Err e
  end.

(* performing writes on a map, oldest first *)
Definition replay (ws : list (netip.AddrPort * bool))
    (ips : gmap netip.AddrPort bool) : gmap netip.AddrPort bool :=
  fold_left (λ m kv, <[kv.1 := kv.2]> m) ws ips.

(* the writes of each element, concatenated; the first failure wins *)
Fixpoint concatWrites {A W} (f : A → result (list W)) (l : list A)
  : result (list W) :=
  match l with
  | [] => Ok []
  | x :: l' =>
      match f x with
      | Err e => Err e
      | Ok ws =>
          match concatWrites f l' with
          | Err e => Err e
          | Ok ws' => Ok (ws ++ ws')
          end
      end
  end.

(** ** What the effectful functions do to the world *)

Definition isMutation (c : Call) : bool :=
  match c with
  | CallUpdateService _ _ | CallRemoveService _ => true
  | _ => false
  end.

Definition isResolution (c : Call) : bool :=
  match c with
  | CallListEndpointSlices _ _ | CallGetNode _ => true
  | _ => false
  end.

(* only cluster reads happened between w and w' *)
Definition readsOnly {G} (w w' : World G) : Prop :=
  w_graph w' = w_graph w ∧
  ∃ cs, w_calls w' = w_calls w ++ cs ∧ Forall (λ c, isResolution c = true) cs.

(* the world after further calls *)
Definition logged {G} (w : World G) (cs : list Call) : World G :=
  {| w_graph := w_graph w; w_calls := w_calls w ++ cs; w_ranges := w_ranges w |}.

(** ** What the theorems say about the controller *)

(* ascending by address: no entry's address is less than that of an entry
   before it *)
Definition sortedByAddr (l : list graph.ServiceEndpoint) : Prop :=
  StronglySorted
    (λ a b, netip.Less (graph.AddrPort b).1 (graph.AddrPort a).1 = false) l.

Definition mkEndpoint (port : graph.ServicePort) (ip : netip.AddrPort)
  : graph.ServiceEndpoint :=
  {| graph.AddrPort := ip; graph.Endpoint_Protocol := graph.Protocol port |}.

(* a Service port is accepted when its protocol is TCP or UDP *)
Definition accepted (sp : corev1.ServicePort) : Prop :=
  corev1.Protocol sp = corev1.ProtocolTCP ∨ corev1.Protocol sp = corev1.ProtocolUDP.

Definition portOf (sp : corev1.ServicePort) : graph.ServicePort :=
  {| graph.Port := corev1.Port sp; graph.Protocol := corev1.Protocol sp |}.

Section Vocabulary.
Context {G : Type} {SG : ServiceGraph G} {L : GoLib}.
Variable r : ServiceReconciler.

(* what getNodeAddress returns for a node name *)
Definition nodeAddressOf (nodeName : string) : result netip.Addr :=
  match client.GetNode (Client r) nodeName with
  | Ok node => getNodeAddress_loop r (corev1.Status_Addresses node)
  | Err e => Err e
  end.

Definition addressWrite (epPortPort : Z) (ready : bool) (addr : string)
  : result (list (netip.AddrPort * bool)) :=
  match ParseAddr addr with
  | None => Err (ErrParseAddr addr)
  | Some ip => Ok [(netip.AddrPortFrom ip (uint16 epPortPort), ready)]
  end.

Definition endpointWrites (svcPort : corev1.ServicePort) (epPortPort : Z)
    (ep : discoveryv1.Endpoint) : result (list (netip.AddrPort * bool)) :=
  if decide (internal.AddressSource' (config r) = internal.AddressSourceNode) then
    match discoveryv1.NodeName ep with
    | Some nodeName =>
        if negb (Z.eqb (corev1.NodePort svcPort) 0) then
          match nodeAddressOf nodeName with
          | Err _ => Ok []
          | Ok ip =>
              Ok [(netip.AddrPortFrom ip (uint16 (corev1.NodePort svcPort)),
                   endpointReady ep)]
          end
        else Ok []
    | None => Ok []
    end
  else concatWrites (addressWrite epPortPort (endpointReady ep))
                    (discoveryv1.Addresses ep).

Definition sliceWrites (svcPort : corev1.ServicePort)
    (es : discoveryv1.EndpointSlice) : result (list (netip.AddrPort * bool)) :=
  match slicePort r svcPort es with
  | None => Ok []
  | Some epPortPort =>
      concatWrites (endpointWrites svcPort epPortPort) (discoveryv1.Endpoints es)
  end.

Definition serviceWrites (svc : corev1.Service) (port : graph.ServicePort)
  : result (list (netip.AddrPort * bool)) :=
  match findServicePort (corev1.Spec_Ports svc) port with
  | None => Err ErrServicePortNotFound
  | Some svcPort =>
      match client.ListEndpointSlices (Client r) (corev1.Namespace svc) (corev1.Name svc) with
      | Err e => Err e
      | Ok items => concatWrites (sliceWrites svcPort) items
      end
  end.

(* the keys appended to ipList by the loop over the map *)
Definition readyKeys (n : nat) (ips : gmap netip.AddrPort bool)
  : list netip.AddrPort :=
  (filter (λ e : netip.AddrPort * bool, e.2 = true) (mapRange n (map_to_list ips))).*1.

(* in the words of the design document: the entry's type is the configured
   one, it parses, and its family is the configured one *)
Definition nodeAddressMatches (addr : corev1.NodeAddress) (ip : netip.Addr) : Prop :=
  corev1.Type' addr = internal.NodeAddressType (config r)
  ∧ ParseAddr (corev1.Address addr) = Some ip
  ∧ netip.Is6 ip = internal.UseIPv6Endpoints (config r).

(* [ip] comes from the first matching entry, in listed order *)
Definition firstMatching (addrs : list corev1.NodeAddress) (ip : netip.Addr) : Prop :=
  ∃ (i : nat) addr,
    addrs !! i = Some addr ∧ nodeAddressMatches addr ip
    ∧ ∀ (j : nat) addr' ip', (j < i)%nat → addrs !! j = Some addr'
                             → ¬ nodeAddressMatches addr' ip'.

Definition noneMatching (addrs : list corev1.NodeAddress) : Prop :=
  ∀ addr ip, addr ∈ addrs → ¬ nodeAddressMatches addr ip.

(* an endpoint of a slice that is not skipped, on a node whose address
   resolves to [ip], with readiness [b] *)
Definition resolvesTo (w : World G) (svcPort : corev1.ServicePort)
    (items : list discoveryv1.EndpointSlice) (ip : netip.Addr) (b : bool) : Prop :=
  ∃ es ep nodeName,
    es ∈ items ∧ is_Some (slicePort r svcPort es)
    ∧ ep ∈ discoveryv1.Endpoints es
    ∧ discoveryv1.NodeName ep = Some nodeName
    ∧ (getNodeAddress r nodeName w).1 = Ok ip
    ∧ endpointReady ep = b.

(* the warning recorded for a conflicting port *)
Definition conflictEvent (svc : corev1.Service) (port : graph.ServicePort) : Call :=
  CallEventf svc "Warning" "Conflict" conflictMessage [ServicePort_String port].

(* the settings every port of the Service is stored with *)
Definition portSettings (svc : corev1.Service) (pd : graph.ServicePortData) : Prop :=
  graph.UseProxyProtocol pd = String.eqb (annotation svc proxyProtocolAnnotation) "true"
  ∧ graph.IdleTimeout pd
    = (if String.eqb (annotation svc idleTimeoutAnnotation) "" then None
       else ParseDuration (annotation svc idleTimeoutAnnotation))
  ∧ Forall2 (λ s p, ParsePrefix s = Some p)
      (corev1.Spec_LoadBalancerSourceRanges svc) (graph.AllowedIPRanges pd).

(* the world once the Service is fetched and all its ports are probed *)
Definition probed (req : types.NamespacedName) (svc : corev1.Service)
    (w : World G) : World G :=
  logged w (CallGetService req :: (CallConflicts req <$> getServicePorts svc)).

(* the Service as updateStatus writes it *)
Definition statusOf (svc : corev1.Service) : corev1.Service :=
  setIngress svc (ingressOf <$> internal.IngressStatus (config r)).

End Vocabulary.

(** ** Reachable registries *)

Module registry_facts.

(* the registries that arise from the empty one by commits and removals *)
Inductive reachable : registry.State → Prop :=
| reachable_empty : reachable registry.empty
| reachable_update g owner data :
    reachable g → reachable (registry.UpdateService g owner data)
| reachable_remove g owner :
    reachable g → reachable (registry.RemoveService g owner).

(* Service [k] has data stored that contains port [p] *)
Definition holds (g : registry.State) (k : types.NamespacedName)
    (p : graph.ServicePort) : Prop :=
  ∃ data, registry.owners g !! k = Some data ∧ is_Some (graph.Ports data !! p).

(* the ownership index is exactly the ports of the stored data *)
Definition consistent (g : registry.State) : Prop :=
  ∀ p k, registry.index g !! p = Some k ↔ holds g k p.

End registry_facts.

(** ** Concrete clusters *)

Module demo.

Definition tcpPort (name : string) (port targetPort nodePort : Z) : corev1.ServicePort :=
  {| corev1.Port_Name := name; corev1.Protocol := "TCP"; corev1.Port := port;
     corev1.TargetPort :=
       {| intstr.Type' := intstr.Int; intstr.IntVal := targetPort; intstr.StrVal := "" |};
     corev1.NodePort := nodePort |}.

Definition loadBalancer (name : string) (annotations : gmap string string)
    (ports : list corev1.ServicePort) (sourceRanges : list string) : corev1.Service :=
  {| corev1.Namespace := "default"; corev1.Name := name;
     corev1.Annotations := annotations;
     corev1.Spec_Type := "LoadBalancer";
     corev1.Spec_LoadBalancerClass := None;
     corev1.Spec_Ports := ports;
     corev1.Spec_LoadBalancerSourceRanges := sourceRanges;
     corev1.Status_LoadBalancer_Ingress := [] |}.

Definition key (name : string) : types.NamespacedName :=
  {| types.Namespace := "default"; types.Name := name |}.

Definition endpoint (addr : string) (ready : option bool) (node : option string)
  : discoveryv1.Endpoint :=
  {| discoveryv1.Addresses := [addr]; discoveryv1.Conditions_Ready := ready;
     discoveryv1.NodeName := node |}.

Definition slice4 (port : Z) (eps : list discoveryv1.Endpoint)
  : discoveryv1.EndpointSlice :=
  {| discoveryv1.AddressType := "IPv4";
     discoveryv1.Ports := [ {| discoveryv1.Name := None; discoveryv1.Port := Some port |} ];
     discoveryv1.Endpoints := eps |}.

Definition node (addrs : list (string * string)) : corev1.Node :=
  {| corev1.Status_Addresses :=
       (λ a, {| corev1.Type' := a.1; corev1.Address := a.2 |}) <$> addrs |}.

(* a cluster with the given Services, EndpointSlices per Service name and
   Nodes; status writes succeed unless [statusError] says otherwise *)
Definition cluster (services : list corev1.Service)
    (slices : list (string * list discoveryv1.EndpointSlice))
    (nodes : list (string * corev1.Node)) (statusError : option error)
  : client.Client :=
  {| client.GetService := λ k,
       match list_find (λ svc, k = {| types.Namespace := corev1.Namespace svc;
                                      types.Name := corev1.Name svc |}) services with
       | Some (_, svc) => Ok svc
       | None => Err (ErrNotFound (types.Name k))
       end;
     client.GetNode := λ n,
       match list_find (λ e, e.1 = n) nodes with
       | Some (_, e) => Ok e.2
       | None => Err (ErrNotFound n)
       end;
     client.ListEndpointSlices := λ ns n,
       match list_find (λ e, e.1 = n) slices with
       | Some (_, e) => Ok e.2
       | None => Ok []
       end;
     client.StatusUpdate := λ _, statusError |}.

Definition configOf (source : internal.AddressSource) : internal.Config :=
  {| internal.LoadBalancerClass := "";
     internal.AddressSource' := source;
     internal.NodeAddressType := "InternalIP";
     internal.UseIPv6Endpoints := false;
     internal.IngressStatus :=
       [ {| internal.IP := Some [192; 168; 1; 1]; internal.Hostname := "" |};
         {| internal.IP := None; internal.Hostname := "lb.example.org" |} ] |}.

Definition start (g : registry.State) : World registry.State :=
  {| w_graph := g; w_calls := []; w_ranges := 0 |}.

Definition web : corev1.Service := loadBalancer "web" ∅ [tcpPort "" 80 8080 30080] [].
Definition port80 : graph.ServicePort := {| graph.Port := 80; graph.Protocol := "TCP" |}.

Definition n1 : corev1.Node :=
  node [("InternalIP", "10.0.0.5"); ("ExternalIP", "1.2.3.4")].
Definition n1v6 : corev1.Node :=
  node [("InternalIP", "fd00::5"); ("ExternalIP", "1.2.3.4")].

(* Node mode: one ready endpoint on n1 *)
Definition nodeCluster : ServiceReconciler :=
  {| Client := cluster [web]
                 [("web", [slice4 8080 [endpoint "10.1.0.7" (Some true) (Some "n1")]])]
                 [("n1", n1); ("n6", n1v6)] None;
     config := configOf internal.AddressSourceNode |}.

(* Pod mode: duplicates with mixed readiness across two slices *)
Definition podCluster : ServiceReconciler :=
  {| Client := cluster [web]
                 [("web", [slice4 8080 [endpoint "10.0.0.2" None None;
                                        endpoint "10.0.0.1" (Some false) None];
                           slice4 8080 [endpoint "10.0.0.1" (Some true) None;
                                        endpoint "10.0.0.3" (Some false) None;
                                        endpoint "10.0.0.2" (Some true) None]])]
                 [] None;
     config := configOf internal.AddressSourcePod |}.

End demo.

Module demo2.
Import demo.

(* Node mode: endpoints on a node that resolves, on a node without a valid
   address and on a node that does not exist *)
Definition nodeSlices : list discoveryv1.EndpointSlice :=
  [slice4 8080 [endpoint "10.1.0.7" (Some true) (Some "n6");
                endpoint "10.1.0.8" (Some true) (Some "ghost");
                endpoint "10.1.0.9" (Some true) (Some "n1")]].

Definition degradedCluster : ServiceReconciler :=
  {| Client := cluster [web] [("web", nodeSlices)] [("n1", n1); ("n6", n1v6)] None;
     config := configOf internal.AddressSourceNode |}.

(* Pod mode: one address string is malformed *)
Definition badSlice : discoveryv1.EndpointSlice :=
  slice4 8080 [endpoint "10.0.0.1" (Some true) None;
               endpoint "10.0.0.300" (Some true) None].

Definition malformedCluster : ServiceReconciler :=
  {| Client := cluster [web] [("web", [badSlice])] [] None;
     config := configOf internal.AddressSourcePod |}.

Definition ep_n1 : graph.ServiceEndpoint :=
  {| graph.AddrPort := (netip.Addr4 167772165, 30080);
     graph.Endpoint_Protocol := "TCP" |}.

End demo2.

Module demo3.
Import demo.

(* a named port whose target is resolved per pod: two host-network pods on
   one machine serve it on different port numbers *)
Definition http : corev1.ServicePort :=
  {| corev1.Port_Name := "http"; corev1.Protocol := "TCP"; corev1.Port := 80;
     corev1.TargetPort :=
       {| intstr.Type' := intstr.String; intstr.IntVal := 0; intstr.StrVal := "http" |};
     corev1.NodePort := 30080 |}.

Definition api : corev1.Service := loadBalancer "api" ∅ [http] [].

Definition httpSlice (port : Z) (eps : list discoveryv1.Endpoint)
  : discoveryv1.EndpointSlice :=
  {| discoveryv1.AddressType := "IPv4";
     discoveryv1.Ports := [ {| discoveryv1.Name := Some "http"; discoveryv1.Port := Some port |} ];
     discoveryv1.Endpoints := eps |}.

Definition tieCluster : ServiceReconciler :=
  {| Client := cluster [api]
                 [("api", [httpSlice 8080 [endpoint "10.0.0.1" (Some true) None];
                           httpSlice 9090 [endpoint "10.0.0.1" (Some true) None]])]
                 [] None;
     config := configOf internal.AddressSourcePod |}.

Definition at8080 : graph.ServiceEndpoint :=
  {| graph.AddrPort := (netip.Addr4 167772161, 8080); graph.Endpoint_Protocol := "TCP" |}.
Definition at9090 : graph.ServiceEndpoint :=
  {| graph.AddrPort := (netip.Addr4 167772161, 9090); graph.Endpoint_Protocol := "TCP" |}.

End demo3.

Module demo4.
Import demo.

Definition plainPort : graph.ServicePortData :=
  {| graph.Endpoints := []; graph.UseProxyProtocol := false;
     graph.IdleTimeout := None; graph.AllowedIPRanges := [] |}.

(* a registry in which Service "other" holds 80/TCP *)
Definition taken : registry.State :=
  registry.UpdateService registry.empty (key "other")
    {| graph.Ports := {[ port80 := plainPort ]} |}.

Definition udpPort (port : Z) : corev1.ServicePort :=
  {| corev1.Port_Name := "dns"; corev1.Protocol := "UDP"; corev1.Port := port;
     corev1.TargetPort :=
       {| intstr.Type' := intstr.Int; intstr.IntVal := port; intstr.StrVal := "" |};
     corev1.NodePort := 0 |}.

Definition sctpPort (port : Z) : corev1.ServicePort :=
  {| corev1.Port_Name := "sig"; corev1.Protocol := "SCTP"; corev1.Port := port;
     corev1.TargetPort :=
       {| intstr.Type' := intstr.Int; intstr.IntVal := port; intstr.StrVal := "" |};
     corev1.NodePort := 0 |}.

(* idle timeout present but empty *)
Definition quiet : corev1.Service :=
  loadBalancer "quiet" {[ idleTimeoutAnnotation := "" ]} [tcpPort "" 80 8080 30080] [].

(* idle timeout malformed *)
Definition hasty : corev1.Service :=
  loadBalancer "hasty" {[ idleTimeoutAnnotation := "30x" ]} [tcpPort "" 80 8080 30080] [].

(* a malformed source range *)
Definition fenced : corev1.Service :=
  loadBalancer "fenced" ∅ [tcpPort "" 80 8080 30080] ["10.0.0.0/8"; "banana"].

(* not a LoadBalancer, idle timeout malformed *)
Definition inner : corev1.Service :=
  {| corev1.Namespace := "default"; corev1.Name := "inner";
     corev1.Annotations := {[ idleTimeoutAnnotation := "30x" ]};
     corev1.Spec_Type := "ClusterIP";
     corev1.Spec_LoadBalancerClass := None;
     corev1.Spec_Ports := [tcpPort "" 80 8080 0];
     corev1.Spec_LoadBalancerSourceRanges := [];
     corev1.Status_LoadBalancer_Ingress := [] |}.

(* three ports, one of them SCTP; no EndpointSlice exists yet *)
Definition multi : corev1.Service :=
  loadBalancer "multi"
    {[ proxyProtocolAnnotation := "true"; idleTimeoutAnnotation := "30s" ]}
    [tcpPort "" 80 8080 30080; udpPort 53; sctpPort 9] ["10.0.0.0/8"].

Definition settingsCluster : ServiceReconciler :=
  {| Client := cluster [quiet; hasty; fenced; inner; multi] [] [] None;
     config := configOf internal.AddressSourcePod |}.

(* the cluster of [nodeCluster], refusing status writes *)
Definition stubbornCluster : ServiceReconciler :=
  {| Client := cluster [web]
                 [("web", [slice4 8080 [endpoint "10.1.0.7" (Some true) (Some "n1")]])]
                 [("n1", n1)] (Some (ErrAPI "the object has been modified"));
     config := configOf internal.AddressSourceNode |}.

Definition webData : graph.ServiceData :=
  {| graph.Ports :=
       {[ port80 := {| graph.Endpoints := [demo2.ep_n1];
                       graph.UseProxyProtocol := false;
                       graph.IdleTimeout := None;
                       graph.AllowedIPRanges := [] |} ]} |}.

End demo4.

(** ** Further vocabulary *)

(* the calls made between w and w' *)
Definition callsSince {G} (w w' : World G) : list Call :=
  drop (length (w_calls w)) (w_calls w').

Definition isList (c : Call) : bool :=
  match c with
  | CallListEndpointSlices _ _ => true
  | _ => false
  end.

(* the value of the last write to [k] among [ws], if there is one *)
Definition lastWrite (ws : list (netip.AddrPort * bool)) (k : netip.AddrPort)
  : option bool :=
  snd <$> last (filter (λ kv : netip.AddrPort * bool, kv.1 = k) ws).

(* the object is one that List returns for InNamespace(ns) and
   MatchingLabels{LabelServiceName: name} *)
Definition selectedBy (ns name : string) (obj : metav1.Object) : Prop :=
  metav1.Namespace obj = ns ∧ metav1.Labels obj !! LabelServiceName = Some name.

Definition keyOf (svc : corev1.Service) : types.NamespacedName :=
  {| types.Namespace := corev1.Namespace svc; types.Name := corev1.Name svc |}.

#[global] Instance accepted_dec (sp : corev1.ServicePort) : Decision (accepted sp).
Proof. unfold accepted. apply _. Defined.

Section FurtherVocabulary.
Context {G : Type} {SG : ServiceGraph G}.

(* the three ways in which Reconcile can leave the registry *)
Definition registryUntouched (w w' : World G) : Prop :=
  w_graph w' = w_graph w
  ∧ ∃ cs, w_calls w' = w_calls w ++ cs ∧ Forall (λ c, isMutation c = false) cs.

Definition registryRemoved (req : types.NamespacedName) (w w' : World G) : Prop :=
  w_graph w' = RemoveService (w_graph w) req
  ∧ w_calls w' = w_calls w ++ [CallGetService req; CallRemoveService req].

Definition registryCommitted (req : types.NamespacedName) (w w' : World G) : Prop :=
  ∃ data cs svc',
    w_graph w' = UpdateService (w_graph w) req data
    ∧ w_calls w' = w_calls w ++ cs ++ [CallUpdateService req data; CallStatusUpdate svc']
    ∧ Forall (λ c, isMutation c = false) cs.

End FurtherVocabulary.

Section NodeFetches.
Variable r : ServiceReconciler.

(* the node that the resolver looks up for an endpoint, if it does *)
Definition fetchOf (svcPort : corev1.ServicePort) (ep : discoveryv1.Endpoint)
  : list string :=
  if decide (internal.AddressSource' (config r) = internal.AddressSourceNode) then
    match discoveryv1.NodeName ep with
    | Some nodeName =>
        if negb (Z.eqb (corev1.NodePort svcPort) 0) then [nodeName] else []
    | None => []
    end
  else [].

(* the nodes looked up for the listed slices, in order, with repetitions *)
Definition nodeFetches (svcPort : corev1.ServicePort)
    (items : list discoveryv1.EndpointSlice) : list string :=
  es ← items;
  match slicePort r svcPort es with
  | Some _ => ep ← discoveryv1.Endpoints es; fetchOf svcPort ep
  | None => []
  end.

End NodeFetches.

Module demo5.
Import demo.

(* an API server that cannot be reached *)
Definition brokenCluster : ServiceReconciler :=
  {| Client := {| client.GetService := λ _, Err (ErrAPI "context deadline exceeded");
                  client.GetNode := λ _, Err (ErrAPI "context deadline exceeded");
                  client.ListEndpointSlices := λ _ _, Err (ErrAPI "context deadline exceeded");
                  client.StatusUpdate := λ _, Some (ErrAPI "context deadline exceeded") |};
     config := configOf internal.AddressSourcePod |}.

Definition named (name : string) (port targetPort : Z) : corev1.ServicePort :=
  {| corev1.Port_Name := name; corev1.Protocol := "TCP"; corev1.Port := port;
     corev1.TargetPort :=
       {| intstr.Type' := intstr.Int; intstr.IntVal := targetPort; intstr.StrVal := "" |};
     corev1.NodePort := 0 |}.

Definition namedSlice (name : string) (port : Z) (eps : list discoveryv1.Endpoint)
  : discoveryv1.EndpointSlice :=
  {| discoveryv1.AddressType := "IPv4";
     discoveryv1.Ports := [ {| discoveryv1.Name := Some name; discoveryv1.Port := Some port |} ];
     discoveryv1.Endpoints := eps |}.

(* two ports; the pods behind the second one report a malformed address *)
Definition pair : corev1.Service :=
  loadBalancer "pair" ∅ [named "a" 80 8080; named "b" 81 8181] [].

Definition pairCluster : ServiceReconciler :=
  {| Client := cluster [pair]
                 [("pair", [namedSlice "a" 8080 [endpoint "10.0.0.1" (Some true) None];
                            namedSlice "b" 8181 [endpoint "10.0.0.2.3" (Some true) None]])]
                 [] None;
     config := configOf internal.AddressSourcePod |}.



(* a slice port beyond the range of uint16 *)
Definition wideCluster : ServiceReconciler :=
  {| Client := cluster [web]
                 [("web", [slice4 70000 [endpoint "10.0.0.1" (Some true) None]])]
                 [] None;
     config := configOf internal.AddressSourcePod |}.

(* 10.0.0.1 is reported ready in the first slice and terminating in the second *)
Definition flappingCluster : ServiceReconciler :=
  {| Client := cluster [web]
                 [("web", [slice4 8080 [endpoint "10.0.0.1" (Some true) None;
                                        endpoint "10.0.0.2" None None];
                           slice4 8080 [endpoint "10.0.0.1" (Some false) None]])]
                 [] None;
     config := configOf internal.AddressSourcePod |}.

(* an EndpointSlice object of Service "web" *)
Definition webSlice : metav1.Object :=
  {| metav1.Namespace := "default";
     metav1.Labels := {[ LabelServiceName := "web"; "app" := "web" ]} |}.

End demo5.

(** * Properties *)

(** ** The reference library meets the interface *)

Lemma swo_asym {A} (less : A → A → bool) x y :
  StrictWeakOrder less → less x y = true → less y x = false.
Proof.
  intros Hswo Hxy. destruct (less y x) eqn:Hyx; [|done].
  rewrite <- (swo_irrefl less Hswo x). symmetry.
  eapply swo_trans; eauto.
Qed.

Lemma insertBack_perm {A} (less : A → A → bool) x rp :
  goref.insertBack less x rp ≡ₚ x :: rp.
Proof.
  induction rp as [|y rp IH]; simpl; [done|].
  destruct (less x y); [|done].
  rewrite IH. apply Permutation_swap.
Qed.

Lemma insertionSort_perm {A} (less : A → A → bool) (l : list A) :
  goref.insertionSort less l ≡ₚ l.
Proof.
  unfold goref.insertionSort.
  assert (Hgen : ∀ acc, fold_left (λ rp x, goref.insertBack less x rp) l acc ≡ₚ l ++ acc).
  { induction l as [|x l IH]; intros acc; simpl; [done|].
    rewrite IH, insertBack_perm. by rewrite Permutation_middle. }
  rewrite <- Permutation_rev, Hgen. by rewrite app_nil_r.
Qed.

Lemma insertBack_sorted {A} (less : A → A → bool) x rp :
  StrictWeakOrder less →
  StronglySorted (λ a b, less a b = false) rp →
  StronglySorted (λ a b, less a b = false) (goref.insertBack less x rp).
Proof.
  intros Hswo. induction 1 as [|y rp Hrp IH Hy]; simpl.
  - repeat constructor.
  - destruct (less x y) eqn:Hxy.
    + constructor; [done|].
      rewrite insertBack_perm. constructor; [|done].
      by apply swo_asym.
    + constructor; [by constructor|].
      constructor; [done|].
      eapply Forall_impl; [exact Hy|]. simpl. intros b Hb.
      eapply swo_incomp; eauto.
Qed.

Lemma insertionSort_sorted {A} (less : A → A → bool) (l : list A) :
  StrictWeakOrder less → StronglySorted (notAfter less) (goref.insertionSort less l).
Proof.
  intros Hswo. unfold goref.insertionSort.
  assert (Hgen : ∀ acc, StronglySorted (λ a b, less a b = false) acc →
    StronglySorted (λ a b, less a b = false)
      (fold_left (λ rp x, goref.insertBack less x rp) l acc)).
  { induction l as [|x l IH]; intros acc Hacc; simpl; [done|].
    by apply IH, insertBack_sorted. }
  specialize (Hgen [] (SSorted_nil _)).
  induction Hgen as [|y rp Hrp IH Hy]; simpl; [constructor|].
  apply StronglySorted_app_2; [|done|repeat constructor].
  intros a b Ha Hb. apply list_elem_of_singleton in Hb as ->.
  rewrite Forall_forall in Hy. apply Hy.
  apply list_elem_of_In. apply list_elem_of_In, in_rev in Ha. done.
Qed.

(* two runtimes: one walks a map in the order of its entry list, the other
   in the opposite order *)
Definition golib : GoLib :=
  {| ParseAddr := goref.parseAddr;
     ParsePrefix := goref.parsePrefix;
     ParseDuration := goref.parseDuration;
     IP_String := goref.ipString;
     mapRange := λ K V _ l, l;
     mapRange_perm := λ K V _ l, reflexivity l;
     sortSlice := @goref.insertionSort;
     sortSlice_perm := @insertionSort_perm;
     sortSlice_sorted := @insertionSort_sorted |}.

Definition golib' : GoLib :=
  {| ParseAddr := goref.parseAddr;
     ParsePrefix := goref.parsePrefix;
     ParseDuration := goref.parseDuration;
     IP_String := goref.ipString;
     mapRange := λ K V _ l, rev l;
     mapRange_perm := λ K V _ l, Permutation_sym (Permutation_rev l);
     sortSlice := @goref.insertionSort;
     sortSlice_perm := @insertionSort_perm;
     sortSlice_sorted := @insertionSort_sorted |}.

(** ** The order on addresses *)

Lemma string_compare_trans (a b c : string) :
  String.compare a b = Lt → String.compare b c = Lt → String.compare a c = Lt.
Proof.
  intros Hab Hbc.
  apply String_as_OT.cmp_lt. apply String_as_OT.cmp_lt in Hab, Hbc.
  eapply String_as_OT.lt_trans; eassumption.
Qed.

Lemma Compare_refl (a : netip.Addr) : netip.Compare a a = Eq.
Proof.
  unfold netip.Compare. rewrite !N.compare_refl.
  destruct a; simpl; [done|]. by apply String_as_OT.cmp_eq.
Qed.

Lemma Compare_eq (a b : netip.Addr) : netip.Compare a b = Eq → a = b.
Proof.
  unfold netip.Compare.
  destruct a as [v|v z], b as [v'|v' z']; simpl;
    destruct (N.compare_spec v v'); try discriminate; intros Hz; subst; try done.
  apply String_as_OT.cmp_eq in Hz. by subst.
Qed.

Lemma Compare_antisym (a b : netip.Addr) :
  netip.Compare b a = CompOpp (netip.Compare a b).
Proof.
  unfold netip.Compare.
  destruct a as [v|v z], b as [v'|v' z']; simpl; try done;
    rewrite (N.compare_antisym v v'); destruct (v ?= v')%N; simpl; try done.
  apply String_as_OT.cmp_antisym.
Qed.

Lemma Compare_trans (a b c : netip.Addr) :
  netip.Compare a b = Lt → netip.Compare b c = Lt → netip.Compare a c = Lt.
Proof.
  unfold netip.Compare.
  destruct a as [v|v z], b as [v'|v' z'], c as [v''|v'' z'']; simpl; try done;
    destruct (N.compare_spec v v'), (N.compare_spec v' v''); try discriminate;
    subst; intros H1 H2.
  all: try (rewrite N.compare_refl; first [done | eauto using string_compare_trans]).
  all: try (by (destruct (N.compare_spec v v''); try done; subst; lia)).
  all: try (by (destruct (N.compare_spec v' v''); try done; subst; lia)).
  all: try (by (destruct (N.compare_spec v v'); try done; subst; lia)).
Qed.

Lemma Less_swo : StrictWeakOrder netip.Less.
Proof.
  split; unfold netip.Less.
  - intros x. by rewrite Compare_refl.
  - intros x y z Hxy Hyz.
    destruct (netip.Compare x y) eqn:E1; try done.
    destruct (netip.Compare y z) eqn:E2; try done.
    by rewrite (Compare_trans x y z).
  - intros x y z Hxy Hyz.
    destruct (netip.Compare x z) eqn:E3; try done.
    destruct (netip.Compare x y) eqn:E1; try done.
    + apply Compare_eq in E1. subst. by rewrite E3 in Hyz.
    + assert (netip.Compare y x = Lt) as E1' by (rewrite Compare_antisym, E1; done).
      by rewrite (Compare_trans y x z) in Hyz.
Qed.

(* two addresses neither of which is less than the other are equal *)
Lemma Less_total (a b : netip.Addr) :
  netip.Less a b = false → netip.Less b a = false → a = b.
Proof.
  unfold netip.Less. rewrite (Compare_antisym a b).
  destruct (netip.Compare a b) eqn:E; simpl; try done.
  intros _ _. by apply Compare_eq.
Qed.

Ltac unfold_M :=
  unfold mbind, M_bind, mret, M_ret, throw, attempt, liftResult, call,
    getGraph, setGraph in *.

Lemma replay_app ws ws' ips : replay (ws ++ ws') ips = replay ws' (replay ws ips).
Proof. unfold replay. by rewrite fold_left_app. Qed.

Lemma replay_snoc ws k b ips : replay (ws ++ [(k, b)]) ips = <[k := b]> (replay ws ips).
Proof. by rewrite replay_app. Qed.

(* a value read from the replayed map was written, or was there before *)
Lemma replay_lookup_Some ws ips k b :
  replay ws ips !! k = Some b → (k, b) ∈ ws ∨ ips !! k = Some b.
Proof.
  induction ws as [|[k' b'] ws IH] using rev_ind; simpl; [by right|].
  rewrite replay_snoc. destruct (decide (k' = k)) as [->|Hne].
  - rewrite lookup_insert_eq. intros [= ->]. left.
    apply elem_of_app. right. by apply list_elem_of_singleton.
  - rewrite lookup_insert_ne by done. intros H. destruct (IH H); [left|by right].
    apply elem_of_app. by left.
Qed.

(* a key that was written is in the replayed map *)
Lemma replay_lookup_written ws ips k b :
  (k, b) ∈ ws → is_Some (replay ws ips !! k).
Proof.
  induction ws as [|[k' b'] ws IH] using rev_ind; [set_solver|].
  rewrite replay_snoc, elem_of_app, list_elem_of_singleton.
  destruct (decide (k' = k)) as [->|Hne].
  - rewrite lookup_insert_eq. eauto.
  - rewrite lookup_insert_ne by done. intros [?|[=]]; [eauto|done].
Qed.

(* the last write to a key decides its value *)
Lemma replay_last ws ws' ips k b :
  (∀ b', (k, b') ∉ ws') → replay (ws ++ (k, b) :: ws') ips !! k = Some b.
Proof.
  induction ws' as [|[k' b'] ws' IH] using rev_ind; intros Hlast.
  - by rewrite replay_snoc, lookup_insert_eq.
  - replace (ws ++ (k, b) :: ws' ++ [(k', b')])
      with ((ws ++ (k, b) :: ws') ++ [(k', b')]) by (by rewrite <- app_assoc).
    rewrite replay_snoc. destruct (decide (k' = k)) as [->|Hne].
    + exfalso. apply (Hlast b'). set_solver.
    + rewrite lookup_insert_ne by done. apply IH.
      intros b'' Hin. apply (Hlast b''). set_solver.
Qed.

Lemma concatWrites_Ok_elem {A W} (f : A → result (list W)) l ws w :
  concatWrites f l = Ok ws →
  w ∈ ws ↔ ∃ x wsx, x ∈ l ∧ f x = Ok wsx ∧ w ∈ wsx.
Proof.
  revert ws. induction l as [|x l IH]; simpl; intros ws.
  - intros [= <-]. set_solver.
  - destruct (f x) as [wsx|] eqn:Ex; [|done].
    destruct (concatWrites f l) as [ws'|] eqn:El; [|done].
    intros [= <-]. rewrite elem_of_app, (IH ws' eq_refl). split.
    + intros [Hw|(y & wsy & Hy & Hfy & Hw)].
      * exists x, wsx. set_solver.
      * exists y, wsy. set_solver.
    + intros (y & wsy & Hy & Hfy & Hw).
      apply elem_of_cons in Hy as [->|Hy].
      * left. congruence.
      * right. eauto.
Qed.

(* the concatenation fails as soon as one element does *)
Lemma concatWrites_Err_elem {A W} (f : A → result (list W)) l x e :
  x ∈ l → f x = Err e → ∃ e', concatWrites f l = Err e'.
Proof.
  induction l as [|y l IH]; [set_solver|].
  intros Hx Hfx. simpl. apply elem_of_cons in Hx as [->|Hx].
  - rewrite Hfx. eauto.
  - destruct (f y); [|eauto].
    destruct (IH Hx Hfx) as [e' ->]. eauto.
Qed.

Lemma concatWrites_all_Ok {A W} (f : A → result (list W)) l :
  (∀ x, x ∈ l → ∃ ws, f x = Ok ws) → ∃ ws, concatWrites f l = Ok ws.
Proof.
  induction l as [|y l IH]; simpl; [eauto|].
  intros Hall. destruct (Hall y) as [wsy ->]; [set_solver|].
  destruct IH as [ws ->]; [|eauto]. intros x Hx. apply Hall. set_solver.
Qed.

(** ** What the effectful functions do to the world *)

Lemma readsOnly_refl {G} (w : World G) : readsOnly w w.
Proof. split; [done|]. exists []. by rewrite app_nil_r. Qed.

Lemma readsOnly_trans {G} (w1 w2 w3 : World G) :
  readsOnly w1 w2 → readsOnly w2 w3 → readsOnly w1 w3.
Proof.
  intros [Hg1 (cs1 & Hc1 & Hf1)] [Hg2 (cs2 & Hc2 & Hf2)]. split; [congruence|].
  exists (cs1 ++ cs2). rewrite Hc2, Hc1, app_assoc. split; [done|].
  by apply Forall_app.
Qed.

Lemma readsOnly_call {G} (w : World G) c :
  isResolution c = true →
  readsOnly w {| w_graph := w_graph w; w_calls := w_calls w ++ [c];
                 w_ranges := w_ranges w |}.
Proof. intros Hc. split; [done|]. exists [c]. split; [done|]. by constructor. Qed.

Section Effects.
Context {G : Type} {SG : ServiceGraph G} {L : GoLib}.
Variable r : ServiceReconciler.

Lemma forRange_readsOnly {S A} (body : S → A → M G S) l :
  (∀ s x w, readsOnly w (body s x w).2) →
  ∀ s w, readsOnly w (forRange body s l w).2.
Proof.
  intros Hbody. induction l as [|x l IH]; intros s w; simpl.
  - apply readsOnly_refl.
  - unfold_M. specialize (Hbody s x w).
    destruct (body s x w) as [[s'|e] w']; simpl in *; [|done].
    eapply readsOnly_trans; [exact Hbody|apply IH].
Qed.

Lemma forRange_writes {A} (body : gmap netip.AddrPort bool → A → M G (gmap netip.AddrPort bool))
    (f : A → result (list (netip.AddrPort * bool))) l :
  (∀ ips x w, (body ips x w).1 = result_map (λ ws, replay ws ips) (f x)) →
  ∀ ips w, (forRange body ips l w).1
           = result_map (λ ws, replay ws ips) (concatWrites f l).
Proof.
  intros Hbody. induction l as [|x l IH]; intros ips w; simpl; [done|].
  unfold_M. specialize (Hbody ips x w).
  destruct (body ips x w) as [[ips'|e] w']; simpl in *;
    destruct (f x) as [ws|e']; simpl in *; try congruence.
  rewrite IH. injection Hbody as ->.
  destruct (concatWrites f l) as [ws'|]; simpl; [|done].
  by rewrite replay_app.
Qed.

Lemma getNodeAddress_run nodeName (w : World G) :
  getNodeAddress r nodeName w
  = (nodeAddressOf r nodeName,
     {| w_graph := w_graph w; w_calls := w_calls w ++ [CallGetNode nodeName];
        w_ranges := w_ranges w |}).
Proof.
  unfold getNodeAddress, Get_Node, nodeAddressOf. unfold_M. simpl.
  by destruct (client.GetNode (Client r) nodeName).
Qed.

Lemma endpointBody_writes svcPort p ips ep (w : World G) :
  (endpointBody r svcPort p ips ep w).1
  = result_map (λ ws, replay ws ips) (endpointWrites r svcPort p ep).
Proof.
  unfold endpointBody, endpointWrites.
  destruct (decide _) as [Hnode|Hpod].
  - destruct (discoveryv1.NodeName ep) as [n|]; [|done].
    destruct (negb _); [|done].
    unfold mbind, M_bind, attempt. rewrite getNodeAddress_run.
    by destruct (nodeAddressOf r n).
  - apply forRange_writes. intros ips' addr w'.
    unfold addressBody, addressWrite. by destruct (ParseAddr addr).
Qed.

Lemma endpointBody_readsOnly svcPort p ips ep (w : World G) :
  readsOnly w (endpointBody r svcPort p ips ep w).2.
Proof.
  unfold endpointBody.
  destruct (decide _) as [Hnode|Hpod].
  - destruct (discoveryv1.NodeName ep) as [n|]; [|apply readsOnly_refl].
    destruct (negb _); [|apply readsOnly_refl].
    unfold mbind, M_bind, attempt. rewrite getNodeAddress_run.
    destruct (nodeAddressOf r n); simpl; by apply readsOnly_call.
  - apply forRange_readsOnly. intros s addr w'.
    unfold addressBody. destruct (ParseAddr addr); apply readsOnly_refl.
Qed.

Lemma sliceBody_writes svcPort ips es (w : World G) :
  (sliceBody r svcPort ips es w).1
  = result_map (λ ws, replay ws ips) (sliceWrites r svcPort es).
Proof.
  unfold sliceBody, sliceWrites.
  destruct (slicePort r svcPort es) as [p|]; [|done].
  apply forRange_writes. intros. apply endpointBody_writes.
Qed.

Lemma sliceBody_readsOnly svcPort ips es (w : World G) :
  readsOnly w (sliceBody r svcPort ips es w).2.
Proof.
  unfold sliceBody.
  destruct (slicePort r svcPort es) as [p|]; [|apply readsOnly_refl].
  apply forRange_readsOnly. intros. apply endpointBody_readsOnly.
Qed.

(** The map that the code builds is the replay of [serviceWrites]. *)
Lemma collectEndpoints_writes svc port (w : World G) :
  (collectEndpoints r svc port w).1
  = result_map (λ ws, replay ws ∅) (serviceWrites r svc port).
Proof.
  unfold collectEndpoints, serviceWrites.
  destruct (findServicePort _ _) as [svcPort|]; [|done].
  unfold List_EndpointSlices. unfold_M. simpl.
  destruct (client.ListEndpointSlices _ _ _) as [items|e]; [|done].
  apply forRange_writes. intros. apply sliceBody_writes.
Qed.

Lemma collectEndpoints_readsOnly svc port (w : World G) :
  readsOnly w (collectEndpoints r svc port w).2.
Proof.
  unfold collectEndpoints.
  destruct (findServicePort _ _) as [svcPort|]; [|apply readsOnly_refl].
  unfold List_EndpointSlices. unfold_M. simpl.
  destruct (client.ListEndpointSlices _ _ _) as [items|e]; simpl.
  - eapply readsOnly_trans; [|apply forRange_readsOnly; intros; apply sliceBody_readsOnly].
    by apply readsOnly_call.
  - by apply readsOnly_call.
Qed.

End Effects.

(** ** From the map to the returned list *)

Lemma lessByAddr_swo : StrictWeakOrder lessByAddr.
Proof.
  destruct Less_swo as [Hi Ht Hn].
  split; unfold lessByAddr; eauto.
Qed.

Section Order.
Context {G : Type} {L : GoLib}.

Lemma readyKeys_elem n ips k : k ∈ readyKeys n ips ↔ ips !! k = Some true.
Proof.
  unfold readyKeys. rewrite list_elem_of_fmap. split.
  - intros ([k' b] & -> & Hin). apply list_elem_of_filter in Hin as [Hb Hin].
    rewrite mapRange_perm in Hin. apply elem_of_map_to_list in Hin.
    simpl in *. by subst.
  - intros Hk. exists (k, true). split; [done|].
    apply list_elem_of_filter. split; [done|].
    rewrite mapRange_perm. by apply elem_of_map_to_list.
Qed.

Lemma readyKeys_NoDup n ips : NoDup (readyKeys n ips).
Proof.
  unfold readyKeys. apply NoDup_fmap_fst.
  - intros k b1 b2 H1 H2.
    apply list_elem_of_filter in H1 as [_ H1], H2 as [_ H2].
    rewrite mapRange_perm in H1, H2.
    apply elem_of_map_to_list in H1, H2. congruence.
  - apply NoDup_filter. rewrite mapRange_perm. apply NoDup_map_to_list.
Qed.

Lemma orderEndpoints_run port ips (w : World G) :
  orderEndpoints port ips w
  = (Ok (mkEndpoint port <$> sortSlice lessByAddr (readyKeys (w_ranges w) ips)),
     {| w_graph := w_graph w; w_calls := w_calls w; w_ranges := S (w_ranges w) |}).
Proof. reflexivity. Qed.

Lemma AddrPort_mkEndpoint port (ks : list netip.AddrPort) :
  graph.AddrPort <$> (mkEndpoint port <$> ks) = ks.
Proof. rewrite <- list_fmap_compose. apply list_fmap_id. Qed.

(* the returned list holds the ready keys, with the protocol of the port *)
Lemma returned_list_elem port n ips e :
  e ∈ mkEndpoint port <$> sortSlice lessByAddr (readyKeys n ips)
  ↔ ips !! graph.AddrPort e = Some true
    ∧ graph.Endpoint_Protocol e = graph.Protocol port.
Proof.
  rewrite list_elem_of_fmap. split.
  - intros (k & -> & Hk). rewrite sortSlice_perm in Hk.
    apply readyKeys_elem in Hk. done.
  - intros [Hk Hp]. exists (graph.AddrPort e). split.
    + destruct e. simpl in *. by subst.
    + rewrite sortSlice_perm. by apply readyKeys_elem.
Qed.

Lemma sorted_keys_sortedByAddr port n ips :
  sortedByAddr (mkEndpoint port <$> sortSlice lessByAddr (readyKeys n ips)).
Proof.
  unfold sortedByAddr.
  eapply StronglySorted_fmap; [|apply sortSlice_sorted, lessByAddr_swo].
  intros x y Hxy. exact Hxy.
Qed.

End Order.

(** ** The list returned by the resolver *)

Section Resolver.
Context {G : Type} {SG : ServiceGraph G} {L : GoLib}.
Variable r : ServiceReconciler.

Lemma buildEndpoints_run svc port (w : World G) :
  buildEndpoints r svc port w
  = match collectEndpoints r svc port w with
    | (Ok ips, w') => orderEndpoints port ips w'
    | (Err e, w') => (Err e, w')
    end.
Proof. reflexivity. Qed.

(** C4: whenever the map of candidates is built without error, the resolver
    returns a list (it does not fail); the list has each (address, port) pair
    at most once, holds exactly the pairs whose final readiness in the map is
    true, is sorted ascending by address, and is empty when no pair is
    ready. *)
Theorem buildEndpoints_dedup_ready_sorted svc port (w : World G) ips :
  (collectEndpoints r svc port w).1 = Ok ips →
  ∃ l, (buildEndpoints r svc port w).1 = Ok l
       ∧ NoDup (graph.AddrPort <$> l)
       ∧ (∀ e, e ∈ l ↔ ips !! graph.AddrPort e = Some true
                        ∧ graph.Endpoint_Protocol e = graph.Protocol port)
       ∧ sortedByAddr l
       ∧ ((∀ k, ips !! k ≠ Some true) → l = []).
Proof.
  intros Hc. rewrite buildEndpoints_run.
  destruct (collectEndpoints r svc port w) as [[ips'|e] w'] eqn:E;
    simpl in Hc; [|done].
  injection Hc as ->. rewrite orderEndpoints_run.
  set (l := mkEndpoint port <$> sortSlice lessByAddr (readyKeys (w_ranges w') ips)).
  exists l. split; [reflexivity|].
  assert (Helem : ∀ e, e ∈ l ↔ ips !! graph.AddrPort e = Some true
                             ∧ graph.Endpoint_Protocol e = graph.Protocol port)
    by (intros e; apply returned_list_elem).
  split; [|split; [exact Helem|split]].
  - unfold l. rewrite AddrPort_mkEndpoint, sortSlice_perm. apply readyKeys_NoDup.
  - apply sorted_keys_sortedByAddr.
  - intros Hnone. destruct l as [|e l']; [done|].
    exfalso. apply (Hnone (graph.AddrPort e)). apply Helem. left.
Qed.

End Resolver.

(* spec example: duplicates with mixed readiness and not-ready extras *)
Example podCluster_endpoints :
  (buildEndpoints (L := golib) demo.podCluster demo.web demo.port80
     (demo.start registry.empty)).1
  = Ok [ {| graph.AddrPort := (netip.Addr4 167772161, 8080);
            graph.Endpoint_Protocol := "TCP" |};
         {| graph.AddrPort := (netip.Addr4 167772162, 8080);
            graph.Endpoint_Protocol := "TCP" |} ].
Proof. vm_compute. reflexivity. Qed.

Lemma buildEndpoints_dedup_ready_sorted_witness :
  ∃ l, (buildEndpoints (L := golib) demo.podCluster demo.web demo.port80
          (demo.start registry.empty)).1 = Ok l
       ∧ NoDup (graph.AddrPort <$> l)
       ∧ (∀ e, e ∈ l ↔
            replay [((netip.Addr4 167772162, 8080), true);
                    ((netip.Addr4 167772161, 8080), false);
                    ((netip.Addr4 167772161, 8080), true);
                    ((netip.Addr4 167772163, 8080), false);
                    ((netip.Addr4 167772162, 8080), true)] ∅
              !! graph.AddrPort e = Some true
            ∧ graph.Endpoint_Protocol e = graph.Protocol demo.port80)
       ∧ sortedByAddr l
       ∧ ((∀ k, replay [((netip.Addr4 167772162, 8080), true);
                    ((netip.Addr4 167772161, 8080), false);
                    ((netip.Addr4 167772161, 8080), true);
                    ((netip.Addr4 167772163, 8080), false);
                    ((netip.Addr4 167772162, 8080), true)] ∅ !! k ≠ Some true) → l = []).
Proof.
  apply (buildEndpoints_dedup_ready_sorted (L := golib) demo.podCluster
           demo.web demo.port80 (demo.start registry.empty)).
  vm_compute. reflexivity.
Defined.

(** ** Node-address sub-resolution *)

Section NodeAddress.
Context {G : Type} {L : GoLib}.
Variable r : ServiceReconciler.

Lemma firstMatching_cons a addrs ip :
  firstMatching r (a :: addrs) ip
  ↔ nodeAddressMatches r a ip
    ∨ ((∀ ip', ¬ nodeAddressMatches r a ip') ∧ firstMatching r addrs ip).
Proof.
  split.
  - intros ([|i] & addr & Hi & Hm & Hfirst); simpl in Hi.
    + left. congruence.
    + right. split.
      * intros ip'. apply (Hfirst 0%nat a ip'); [lia|done].
      * exists i, addr. split; [done|]. split; [done|].
        intros j addr' ip' Hj Hl. apply (Hfirst (S j) addr' ip'); [lia|done].
  - intros [Hm|[Hno (i & addr & Hi & Hm & Hfirst)]].
    + exists 0%nat, a. split; [done|]. split; [done|]. intros; lia.
    + exists (S i), addr. split; [done|]. split; [done|].
      intros [|j] addr' ip' Hj Hl; simpl in Hl.
      * injection Hl as <-. apply Hno.
      * apply (Hfirst j); [lia|done].
Qed.

Lemma noneMatching_cons a addrs :
  noneMatching r (a :: addrs)
  ↔ (∀ ip, ¬ nodeAddressMatches r a ip) ∧ noneMatching r addrs.
Proof.
  unfold noneMatching. split.
  - intros H. split; [intros ip; apply (H a ip); left|].
    intros addr ip Hin. apply (H addr ip). by right.
  - intros [Ha H] addr ip Hin. apply elem_of_cons in Hin as [->|Hin]; eauto.
Qed.

Lemma getNodeAddress_loop_spec addrs :
  (∀ ip, getNodeAddress_loop r addrs = Ok ip ↔ firstMatching r addrs ip)
  ∧ (∀ e, getNodeAddress_loop r addrs = Err e
          ↔ e = noValidNodeAddressError ∧ noneMatching r addrs).
Proof.
  induction addrs as [|a addrs [IHok IHerr]].
  - simpl. split.
    + intros ip. split; [done|]. by intros (i & addr & Hi & _).
    + intros e. split; [intros [= <-]; split; [done|]|intros [-> _]; done].
      intros addr ip Hin. by apply elem_of_nil in Hin.
  - assert (Hskip : (∀ ip', ¬ nodeAddressMatches r a ip') →
      (∀ ip, getNodeAddress_loop r addrs = Ok ip ↔ firstMatching r (a :: addrs) ip)
      ∧ (∀ e, getNodeAddress_loop r addrs = Err e
              ↔ e = noValidNodeAddressError ∧ noneMatching r (a :: addrs))).
    { intros Hno. split.
      - intros ip. rewrite firstMatching_cons, IHok. split; [eauto|].
        intros [Hm|[_ ?]]; [by apply Hno in Hm|done].
      - intros e. rewrite noneMatching_cons, IHerr. naive_solver. }
    simpl. destruct (String.eqb_spec (corev1.Type' a) (internal.NodeAddressType (config r)))
      as [Hty|Hty]; simpl.
    2: { apply Hskip. intros ip' (? & _). done. }
    destruct (ParseAddr (corev1.Address a)) as [ip0|] eqn:Hparse.
    2: { apply Hskip. intros ip' (_ & ? & _). congruence. }
    assert (Hhit : netip.Is6 ip0 = internal.UseIPv6Endpoints (config r) →
      (∀ ip, Ok ip0 = Ok ip ↔ firstMatching r (a :: addrs) ip)
      ∧ (∀ e, @Ok netip.Addr ip0 = Err e
              ↔ e = noValidNodeAddressError ∧ noneMatching r (a :: addrs))).
    { intros Hfam. split.
      - intros ip. rewrite firstMatching_cons. split.
        + intros [= <-]. left. done.
        + intros [(_ & Hp & _)|[Hno _]]; [congruence|].
          exfalso. by apply (Hno ip0).
      - intros e. split; [done|]. intros [_ Hnone]. exfalso.
        apply (Hnone a ip0); [left|done]. }
    destruct (internal.UseIPv6Endpoints (config r)) eqn:Hv6, ip0 as [v|v z];
      simpl in *; try (by apply Hhit).
    all: apply Hskip; intros ip' (_ & Hp & Hf); rewrite Hparse in Hp;
      injection Hp as <-; rewrite Hv6 in Hf; done.
Qed.

(** C7: once the Node is fetched, getNodeAddress returns the address of the
    first entry, in listed order, whose type is the configured one and whose
    (parsed) address is of the configured family; entries that do not parse
    are passed over; and it fails, with noValidNodeAddressError and only
    with it, exactly when no entry matches. *)
Theorem getNodeAddress_first_match nodeName node (w : World G) :
  client.GetNode (Client r) nodeName = Ok node →
  (∀ ip, (getNodeAddress r nodeName w).1 = Ok ip
         ↔ firstMatching r (corev1.Status_Addresses node) ip)
  ∧ (∀ e, (getNodeAddress r nodeName w).1 = Err e
          ↔ e = noValidNodeAddressError
            ∧ noneMatching r (corev1.Status_Addresses node)).
Proof.
  intros Hget. rewrite getNodeAddress_run. simpl.
  unfold nodeAddressOf. rewrite Hget. apply getNodeAddress_loop_spec.
Qed.

End NodeAddress.

(* spec example: InternalIP 10.0.0.5 is chosen over ExternalIP 1.2.3.4 *)
Example getNodeAddress_n1 :
  (getNodeAddress (L := golib) demo.nodeCluster "n1"
     (demo.start registry.empty)).1 = Ok (netip.Addr4 167772165).
Proof. vm_compute. reflexivity. Qed.

(* spec example: an IPv6 InternalIP and no IPv4 one, IPv4 configured *)
Example getNodeAddress_n6 :
  (getNodeAddress (L := golib) demo.nodeCluster "n6"
     (demo.start registry.empty)).1 = Err noValidNodeAddressError.
Proof. vm_compute. reflexivity. Qed.

Lemma getNodeAddress_first_match_witness :
  (∀ ip, (getNodeAddress (L := golib) demo.nodeCluster "n1"
            (demo.start registry.empty)).1 = Ok ip
         ↔ firstMatching (L := golib) demo.nodeCluster
             (corev1.Status_Addresses demo.n1) ip)
  ∧ (∀ e, (getNodeAddress (L := golib) demo.nodeCluster "n1"
             (demo.start registry.empty)).1 = Err e
          ↔ e = noValidNodeAddressError
            ∧ noneMatching (L := golib) demo.nodeCluster
                (corev1.Status_Addresses demo.n1)).
Proof.
  apply (getNodeAddress_first_match (L := golib) demo.nodeCluster "n1" demo.n1).
  vm_compute. reflexivity.
Defined.

(** ** The resolver's result, from the writes *)

Lemma concatWrites_Err_inv {A W} (f : A → result (list W)) l e :
  concatWrites f l = Err e → ∃ x, x ∈ l ∧ f x = Err e.
Proof.
  induction l as [|y l IH]; simpl; [done|].
  destruct (f y) as [ws|e'] eqn:Ey.
  - destruct (concatWrites f l) as [ws'|e'']; [done|].
    intros [= ->]. destruct IH as (x & Hx & Hfx); [done|].
    exists x. split; [by right|done].
  - intros [= ->]. exists y. split; [left|done].
Qed.

Lemma concatWrites_ext {A W} (f g : A → result (list W)) l :
  (∀ x, x ∈ l → f x = g x) → concatWrites f l = concatWrites g l.
Proof.
  induction l as [|y l IH]; simpl; [done|]. intros Hfg.
  rewrite (Hfg y) by left. rewrite IH; [done|].
  intros x Hx. apply Hfg. by right.
Qed.

Section ResolverWrites.
Context {G : Type} {L : GoLib}.
Variable r : ServiceReconciler.

(* the returned list is computed from the writes alone, up to the order in
   which the runtime walks the map *)
Lemma buildEndpoints_writes svc port (w : World G) :
  ∃ n, (buildEndpoints r svc port w).1
       = result_map
           (λ ws, mkEndpoint port <$> sortSlice lessByAddr (readyKeys n (replay ws ∅)))
           (serviceWrites r svc port).
Proof.
  rewrite buildEndpoints_run.
  pose proof (collectEndpoints_writes r svc port w) as Hc.
  destruct (collectEndpoints r svc port w) as [[ips|e] w']; simpl in Hc.
  - exists (w_ranges w'). rewrite orderEndpoints_run. simpl.
    destruct (serviceWrites r svc port) as [ws|]; simpl in *; [|done].
    by injection Hc as ->.
  - exists 0%nat. destruct (serviceWrites r svc port); simpl in *; congruence.
Qed.

(* membership in the returned list *)
Lemma buildEndpoints_elem svc port (w : World G) l ws e :
  (buildEndpoints r svc port w).1 = Ok l →
  serviceWrites r svc port = Ok ws →
  e ∈ l ↔ replay ws ∅ !! graph.AddrPort e = Some true
          ∧ graph.Endpoint_Protocol e = graph.Protocol port.
Proof.
  intros Hl Hws. destruct (buildEndpoints_writes svc port w) as [n Hn].
  rewrite Hl, Hws in Hn. simpl in Hn. injection Hn as ->.
  apply returned_list_elem.
Qed.

(** *** Node mode *)

Lemma nodeAddressOf_getNodeAddress {G'} nodeName (w : World G') :
  (getNodeAddress r nodeName w).1 = nodeAddressOf r nodeName.
Proof. by rewrite getNodeAddress_run. Qed.

Lemma node_endpointWrites svcPort p ep k b :
  internal.AddressSource' (config r) = internal.AddressSourceNode →
  (∃ ws, endpointWrites r svcPort p ep = Ok ws)
  ∧ (∀ ws, endpointWrites r svcPort p ep = Ok ws →
       (k, b) ∈ ws ↔
       ∃ nodeName ip,
         discoveryv1.NodeName ep = Some nodeName
         ∧ corev1.NodePort svcPort ≠ 0
         ∧ nodeAddressOf r nodeName = Ok ip
         ∧ k = (ip, uint16 (corev1.NodePort svcPort))
         ∧ b = endpointReady ep).
Proof.
  intros Hnode. unfold endpointWrites.
  destruct (decide _) as [_|?]; [|done].
  destruct (discoveryv1.NodeName ep) as [n|].
  2: { split; [eauto|]. intros ws [= <-]. split; [by intros ?%elem_of_nil|].
       by intros (? & ? & ? & _). }
  destruct (Z.eqb_spec (corev1.NodePort svcPort) 0) as [Hz|Hnz]; simpl.
  { split; [eauto|]. intros ws [= <-]. split; [by intros ?%elem_of_nil|].
    by intros (? & ? & _ & ? & _). }
  destruct (nodeAddressOf r n) as [ip|e] eqn:Hip.
  - split; [eauto|]. intros ws [= <-]. rewrite list_elem_of_singleton. split.
    + intros [= -> ->]. exists n, ip. done.
    + intros (n' & ip' & [= <-] & _ & Hip' & -> & ->).
      rewrite Hip in Hip'. by injection Hip' as <-.
  - split; [eauto|]. intros ws [= <-]. split; [by intros ?%elem_of_nil|].
    intros (n' & ip' & [= <-] & _ & Hip' & _). congruence.
Qed.

Lemma node_sliceWrites_Ok svcPort es :
  internal.AddressSource' (config r) = internal.AddressSourceNode →
  ∃ ws, sliceWrites r svcPort es = Ok ws.
Proof.
  intros Hnode. unfold sliceWrites.
  destruct (slicePort r svcPort es) as [p|]; [|eauto].
  apply concatWrites_all_Ok. intros ep _.
  by apply (node_endpointWrites svcPort p ep (netip.Addr4 0, 0) true).
Qed.

Lemma node_serviceWrites_elem (w : World G) svcPort items ws k b :
  internal.AddressSource' (config r) = internal.AddressSourceNode →
  concatWrites (sliceWrites r svcPort) items = Ok ws →
  (k, b) ∈ ws ↔
  corev1.NodePort svcPort ≠ 0
  ∧ k.2 = uint16 (corev1.NodePort svcPort)
  ∧ resolvesTo r w svcPort items k.1 b.
Proof.
  intros Hnode Hws. rewrite (concatWrites_Ok_elem _ _ _ _ Hws).
  unfold resolvesTo. split.
  - intros (es & wses & Hes & Hwses & Hin). unfold sliceWrites in Hwses.
    destruct (slicePort r svcPort es) as [p|] eqn:Hp;
      [|injection Hwses as <-; by apply elem_of_nil in Hin].
    rewrite (concatWrites_Ok_elem _ _ _ _ Hwses) in Hin.
    destruct Hin as (ep & wsep & Hep & Hwsep & Hin).
    apply (node_endpointWrites svcPort p ep k b Hnode) in Hin
      as (n & ip & Hn & Hnz & Hip & -> & ->); [|done].
    split; [done|]. split; [done|].
    exists es, ep, n. rewrite Hp, nodeAddressOf_getNodeAddress. simpl.
    repeat split; eauto.
  - intros (Hnz & Hport & es & ep & n & Hes & [p Hp] & Hep & Hn & Hip & Hb).
    rewrite nodeAddressOf_getNodeAddress in Hip.
    destruct (node_sliceWrites_Ok svcPort es Hnode) as [wses Hwses].
    exists es, wses. split; [done|]. split; [done|].
    unfold sliceWrites in Hwses. rewrite Hp in Hwses.
    rewrite (concatWrites_Ok_elem _ _ _ _ Hwses).
    destruct (node_endpointWrites svcPort p ep k b Hnode) as [[wsep Hwsep] Hiff].
    exists ep, wsep. split; [done|]. split; [done|].
    apply Hiff; [done|]. exists n, k.1. destruct k as [a q]. simpl in *.
    subst. done.
Qed.

End ResolverWrites.

Section ResolverModes.
Context {G : Type} {L : GoLib}.
Variable r : ServiceReconciler.

Lemma endpointWrites_Err svcPort p ep e :
  endpointWrites r svcPort p ep = Err e →
  ∃ a, e = ErrParseAddr a ∧ ParseAddr a = None.
Proof.
  unfold endpointWrites. destruct (decide _) as [_|_].
  - destruct (discoveryv1.NodeName ep); [|done].
    destruct (negb _); [|done]. by destruct (nodeAddressOf r _).
  - intros (a & _ & Ha)%concatWrites_Err_inv. unfold addressWrite in Ha.
    destruct (ParseAddr a) eqn:E; [done|]. injection Ha as <-. eauto.
Qed.

Lemma sliceWrites_Err svcPort es e :
  sliceWrites r svcPort es = Err e →
  ∃ a, e = ErrParseAddr a ∧ ParseAddr a = None.
Proof.
  unfold sliceWrites. destruct (slicePort r svcPort es); [|done].
  intros (ep & _ & Hep)%concatWrites_Err_inv. by eapply endpointWrites_Err.
Qed.

(* where an endpoint returned in Node mode comes from *)
Lemma node_mode_origin svc port (w : World G) svcPort items l e :
  internal.AddressSource' (config r) = internal.AddressSourceNode →
  findServicePort (corev1.Spec_Ports svc) port = Some svcPort →
  client.ListEndpointSlices (Client r) (corev1.Namespace svc) (corev1.Name svc)
    = Ok items →
  (buildEndpoints r svc port w).1 = Ok l →
  e ∈ l →
  corev1.NodePort svcPort ≠ 0
  ∧ (graph.AddrPort e).2 = uint16 (corev1.NodePort svcPort)
  ∧ resolvesTo r w svcPort items (graph.AddrPort e).1 true.
Proof.
  intros Hnode Hsp Hlist Hl He.
  destruct (buildEndpoints_writes r svc port w) as [n Hn].
  rewrite Hl in Hn. unfold serviceWrites in Hn. rewrite Hsp, Hlist in Hn.
  destruct (concatWrites (sliceWrites r svcPort) items) as [ws|] eqn:Hws; [|done].
  assert (Hsw : serviceWrites r svc port = Ok ws)
    by (unfold serviceWrites; by rewrite Hsp, Hlist).
  apply (buildEndpoints_elem r svc port w l ws e Hl Hsw) in He as [He _].
  apply replay_lookup_Some in He as [He|He]; [|by rewrite lookup_empty in He].
  by apply (node_serviceWrites_elem r w svcPort items ws _ _ Hnode Hws) in He.
Qed.

(** C6: in Node mode every returned endpoint carries the Service's node-port
    (converted to uint16, hence the node-port itself when it is a port
    number) and the address that getNodeAddress resolves for the node named
    by a ready endpoint of a slice that was not skipped; and the node-port is
    not zero. *)
Theorem node_mode_endpoints svc port (w : World G) svcPort items l e :
  internal.AddressSource' (config r) = internal.AddressSourceNode →
  findServicePort (corev1.Spec_Ports svc) port = Some svcPort →
  client.ListEndpointSlices (Client r) (corev1.Namespace svc) (corev1.Name svc)
    = Ok items →
  (buildEndpoints r svc port w).1 = Ok l →
  e ∈ l →
  corev1.NodePort svcPort ≠ 0
  ∧ (graph.AddrPort e).2 = uint16 (corev1.NodePort svcPort)
  ∧ (0 ≤ corev1.NodePort svcPort < 65536 →
     (graph.AddrPort e).2 = corev1.NodePort svcPort)
  ∧ resolvesTo r w svcPort items (graph.AddrPort e).1 true.
Proof.
  intros Hnode Hsp Hlist Hl He.
  destruct (node_mode_origin svc port w svcPort items l e Hnode Hsp Hlist Hl He)
    as (Hnz & Hport & Hres).
  repeat split; try done.
  intros Hrange. rewrite Hport. unfold uint16. by apply Z.mod_small.
Qed.

(** C5: the two failure policies.  In Pod mode an address string that does
    not parse, in an endpoint of a slice that is not skipped, makes the whole
    resolution return an error.  In Node mode the resolution never fails on
    account of node addresses: it returns a list, and that list has the
    address of every node that resolves and whose endpoints are ready, with
    the Service's node-port. *)
Theorem resolver_failure_policy svc port (w : World G) svcPort items :
  findServicePort (corev1.Spec_Ports svc) port = Some svcPort →
  client.ListEndpointSlices (Client r) (corev1.Namespace svc) (corev1.Name svc)
    = Ok items →
  (internal.AddressSource' (config r) ≠ internal.AddressSourceNode →
   ∀ es p ep addr,
     es ∈ items → slicePort r svcPort es = Some p →
     ep ∈ discoveryv1.Endpoints es → addr ∈ discoveryv1.Addresses ep →
     ParseAddr addr = None →
     ∃ a, (buildEndpoints r svc port w).1 = Err (ErrParseAddr a)
          ∧ ParseAddr a = None)
  ∧ (internal.AddressSource' (config r) = internal.AddressSourceNode →
     ∃ l, (buildEndpoints r svc port w).1 = Ok l
          ∧ ∀ ip, corev1.NodePort svcPort ≠ 0 →
                  resolvesTo r w svcPort items ip true →
                  ¬ resolvesTo r w svcPort items ip false →
                  (ip, uint16 (corev1.NodePort svcPort)) ∈ graph.AddrPort <$> l).
Proof.
  intros Hsp Hlist.
  destruct (buildEndpoints_writes r svc port w) as [n Hn].
  assert (Hsw : serviceWrites r svc port = concatWrites (sliceWrites r svcPort) items)
    by (unfold serviceWrites; by rewrite Hsp, Hlist).
  split.
  - intros Hpod es p ep addr Hes Hp Hep Haddr Hparse.
    assert (∃ e, endpointWrites r svcPort p ep = Err e) as [e1 He1].
    { unfold endpointWrites. destruct (decide _) as [?|_]; [done|].
      apply (concatWrites_Err_elem _ _ addr (ErrParseAddr addr)); [done|].
      unfold addressWrite. by rewrite Hparse. }
    assert (∃ e, sliceWrites r svcPort es = Err e) as [e2 He2].
    { unfold sliceWrites. rewrite Hp.
      by apply (concatWrites_Err_elem _ _ ep e1). }
    assert (∃ e, serviceWrites r svc port = Err e) as [e He].
    { rewrite Hsw. by apply (concatWrites_Err_elem _ _ es e2). }
    rewrite He in Hn. simpl in Hn.
    rewrite Hsw in He. apply concatWrites_Err_inv in He as (es' & _ & He).
    apply sliceWrites_Err in He as (a & -> & Ha). eauto.
  - intros Hnode.
    destruct (concatWrites_all_Ok (sliceWrites r svcPort) items) as [ws Hws].
    { intros es _. by apply node_sliceWrites_Ok. }
    assert (Hsw' : serviceWrites r svc port = Ok ws) by (by rewrite Hsw).
    rewrite Hsw' in Hn. simpl in Hn. eexists. split; [exact Hn|].
    intros ip Hnz Hready Hnotready.
    assert (Hin : ((ip, uint16 (corev1.NodePort svcPort)), true) ∈ ws).
    { apply (node_serviceWrites_elem r w svcPort items ws _ _ Hnode Hws). done. }
    apply (replay_lookup_written _ ∅) in Hin as [b Hb].
    assert (b = true) as ->.
    { apply replay_lookup_Some in Hb as [Hb|Hb]; [|by rewrite lookup_empty in Hb].
      apply (node_serviceWrites_elem r w svcPort items ws _ _ Hnode Hws) in Hb
        as (_ & _ & Hb).
      destruct b; [done|]. by destruct Hnotready. }
    apply list_elem_of_fmap.
    exists (mkEndpoint port (ip, uint16 (corev1.NodePort svcPort))). split; [done|].
    apply (buildEndpoints_elem r svc port w _ ws _ Hn Hsw'). done.
Qed.

End ResolverModes.

(* spec example, end to end for the resolver: 10.0.0.5:30080 *)
Example nodeCluster_endpoints :
  (buildEndpoints (L := golib) demo.nodeCluster demo.web demo.port80
     (demo.start registry.empty)).1 = Ok [demo2.ep_n1].
Proof. vm_compute. reflexivity. Qed.

Example degradedCluster_endpoints :
  (buildEndpoints (L := golib) demo2.degradedCluster demo.web demo.port80
     (demo.start registry.empty)).1 = Ok [demo2.ep_n1].
Proof. vm_compute. reflexivity. Qed.

Example malformedCluster_endpoints :
  (buildEndpoints (L := golib) demo2.malformedCluster demo.web demo.port80
     (demo.start registry.empty)).1 = Err (ErrParseAddr "10.0.0.300").
Proof. vm_compute. reflexivity. Qed.

Lemma node_mode_endpoints_witness :
  corev1.NodePort (demo.tcpPort "" 80 8080 30080) ≠ 0
  ∧ (graph.AddrPort demo2.ep_n1).2 = uint16 (corev1.NodePort (demo.tcpPort "" 80 8080 30080))
  ∧ (0 ≤ corev1.NodePort (demo.tcpPort "" 80 8080 30080) < 65536 →
     (graph.AddrPort demo2.ep_n1).2 = corev1.NodePort (demo.tcpPort "" 80 8080 30080))
  ∧ resolvesTo (L := golib) demo2.degradedCluster (demo.start registry.empty)
      (demo.tcpPort "" 80 8080 30080) demo2.nodeSlices
      (graph.AddrPort demo2.ep_n1).1 true.
Proof.
  apply (node_mode_endpoints (L := golib) demo2.degradedCluster demo.web
           demo.port80 (demo.start registry.empty)
           (demo.tcpPort "" 80 8080 30080) demo2.nodeSlices [demo2.ep_n1] demo2.ep_n1).
  - reflexivity.
  - reflexivity.
  - reflexivity.
  - vm_compute. reflexivity.
  - left.
Defined.

Lemma resolver_failure_policy_witness :
  (∃ a, (buildEndpoints (L := golib) demo2.malformedCluster demo.web demo.port80
           (demo.start registry.empty)).1 = Err (ErrParseAddr a)
        ∧ goref.parseAddr a = None)
  ∧ (∃ l, (buildEndpoints (L := golib) demo2.degradedCluster demo.web demo.port80
             (demo.start registry.empty)).1 = Ok l
          ∧ (netip.Addr4 167772165, uint16 30080) ∈ graph.AddrPort <$> l).
Proof.
  split.
  - apply (proj1 (resolver_failure_policy (L := golib) demo2.malformedCluster
                    demo.web demo.port80 (demo.start registry.empty)
                    (demo.tcpPort "" 80 8080 30080) [demo2.badSlice]
                    eq_refl eq_refl))
      with (es := demo2.badSlice) (p := 8080)
           (ep := demo.endpoint "10.0.0.300" (Some true) None)
           (addr := "10.0.0.300").
    + discriminate.
    + left.
    + reflexivity.
    + right. left.
    + left.
    + vm_compute. reflexivity.
  - destruct (proj2 (resolver_failure_policy (L := golib) demo2.degradedCluster
                       demo.web demo.port80 (demo.start registry.empty)
                       (demo.tcpPort "" 80 8080 30080) demo2.nodeSlices
                       eq_refl eq_refl) eq_refl) as (l & Hl & Hin).
    exists l. split; [exact Hl|].
    apply Hin.
    + discriminate.
    + exists (demo.slice4 8080 [demo.endpoint "10.1.0.7" (Some true) (Some "n6");
                                demo.endpoint "10.1.0.8" (Some true) (Some "ghost");
                                demo.endpoint "10.1.0.9" (Some true) (Some "n1")]),
        (demo.endpoint "10.1.0.9" (Some true) (Some "n1")), "n1".
      split; [left|]. split; [by exists 8080|]. split; [right; right; left|].
      split; [reflexivity|]. split; [vm_compute; reflexivity|reflexivity].
    + intros (es & ep & n & Hes & _ & Hep & Hn & Hip & Hready).
      apply list_elem_of_singleton in Hes as ->.
      simpl in Hep. rewrite !elem_of_cons in Hep.
      destruct Hep as [->|[->|[->|Hep]]]; try discriminate Hready.
      by apply elem_of_nil in Hep.
Defined.

(** ** Two runs on the same input *)

Section TwoRuns.
Variables L1 L2 : GoLib.
Variable r : ServiceReconciler.
Hypothesis sameParser : ∀ s, @ParseAddr L1 s = @ParseAddr L2 s.

Lemma getNodeAddress_loop_ext addrs :
  getNodeAddress_loop (L := L1) r addrs = getNodeAddress_loop (L := L2) r addrs.
Proof.
  induction addrs as [|a addrs IH]; simpl; [done|].
  rewrite IH, sameParser. done.
Qed.

Lemma serviceWrites_ext svc port :
  serviceWrites (L := L1) r svc port = serviceWrites (L := L2) r svc port.
Proof.
  unfold serviceWrites.
  destruct (findServicePort _ _) as [svcPort|]; [|done].
  destruct (client.ListEndpointSlices _ _ _) as [items|]; [|done].
  apply concatWrites_ext. intros es _. unfold sliceWrites, slicePort.
  destruct (negb _); [done|].
  destruct (findEndpointPort _ _) as [epp|]; [|done].
  assert (Hep : ∀ p, concatWrites (endpointWrites (L := L1) r svcPort p)
                       (discoveryv1.Endpoints es)
                     = concatWrites (endpointWrites (L := L2) r svcPort p)
                         (discoveryv1.Endpoints es)).
  { intros p. apply concatWrites_ext. intros ep _. unfold endpointWrites.
    destruct (decide _).
    - destruct (discoveryv1.NodeName ep); [|done].
      unfold nodeAddressOf. destruct (client.GetNode _ _); [|done].
      by rewrite getNodeAddress_loop_ext.
    - apply concatWrites_ext. intros a _. unfold addressWrite.
      by rewrite sameParser. }
  destruct (discoveryv1.Port epp); [apply Hep|].
  destruct (intstr.Type' _); [apply Hep|done].
Qed.

Lemma readyKeys_two_runs n1 n2 ips :
  readyKeys (L := L1) n1 ips ≡ₚ readyKeys (L := L2) n2 ips.
Proof.
  apply NoDup_Permutation; try apply readyKeys_NoDup.
  intros k. by rewrite !readyKeys_elem.
Qed.

(** C8, as amended: two runs of the resolver on the same input (the same
    cluster answers and the same parser; the map iteration order and the
    sort may differ) fail with the same error or return two lists that are
    permutations of each other, each sorted ascending by address.  The two
    lists are identical whenever no two returned entries share an address,
    and so always in Node mode. *)
Theorem buildEndpoints_determined_up_to_ties {G1 G2} svc port
    (w1 : World G1) (w2 : World G2) :
  match (buildEndpoints (L := L1) r svc port w1).1,
        (buildEndpoints (L := L2) r svc port w2).1 with
  | Ok l1, Ok l2 =>
      l1 ≡ₚ l2 ∧ sortedByAddr l1 ∧ sortedByAddr l2
      ∧ ((∀ e e', e ∈ l1 → e' ∈ l1 →
            (graph.AddrPort e).1 = (graph.AddrPort e').1 → e = e') → l1 = l2)
      ∧ (internal.AddressSource' (config r) = internal.AddressSourceNode → l1 = l2)
  | Err e1, Err e2 => e1 = e2
  | _, _ => False
  end.
Proof.
  destruct (buildEndpoints_writes (L := L1) r svc port w1) as [n1 H1].
  destruct (buildEndpoints_writes (L := L2) r svc port w2) as [n2 H2].
  pose proof (serviceWrites_ext svc port) as Hext.
  destruct (serviceWrites (L := L1) r svc port) as [ws|e] eqn:Hws1;
    rewrite <- Hext in H2; rewrite H1, H2; simpl; [|done].
  set (ips := replay ws ∅).
  set (l1 := mkEndpoint port <$> sortSlice lessByAddr (readyKeys n1 ips)).
  set (l2 := mkEndpoint port <$> sortSlice lessByAddr (readyKeys n2 ips)).
  assert (Hperm : l1 ≡ₚ l2).
  { unfold l1, l2. apply fmap_Permutation.
    rewrite !sortSlice_perm. apply readyKeys_two_runs. }
  assert (Huniq : (∀ e e', e ∈ l1 → e' ∈ l1 →
            (graph.AddrPort e).1 = (graph.AddrPort e').1 → e = e') → l1 = l2).
  { intros Hties.
    apply (StronglySorted_unique_strong
             (λ a b, netip.Less (graph.AddrPort b).1 (graph.AddrPort a).1 = false));
      [|apply (sorted_keys_sortedByAddr (L := L1))
       |apply (sorted_keys_sortedByAddr (L := L2))|done].
    intros x1 x2 Hx1 Hx2 H12 H21. apply Hties; [done|by rewrite Hperm|].
    by apply Less_total. }
  split; [done|]. split; [apply (sorted_keys_sortedByAddr (L := L1))|].
  split; [apply (sorted_keys_sortedByAddr (L := L2))|]. split; [done|].
  intros Hnode. apply Huniq. intros e e' He He' Haddr.
  assert (Hport : ∀ x, x ∈ l1 →
            graph.Endpoint_Protocol x = graph.Protocol port
            ∧ ∃ q, (graph.AddrPort x).2 = q ∧ ∀ y, y ∈ l1 → (graph.AddrPort y).2 = q).
  { unfold serviceWrites in Hws1.
    destruct (findServicePort _ _) as [svcPort|] eqn:Hsp; [|done].
    destruct (client.ListEndpointSlices _ _ _) as [items|] eqn:Hlist; [|done].
    intros x Hx. split.
    - apply list_elem_of_fmap in Hx as (k & -> & _). done.
    - exists (uint16 (corev1.NodePort svcPort)). split.
      + by apply (node_mode_origin (L := L1) r svc port w1 svcPort items l1 x).
      + intros y Hy.
        by apply (node_mode_origin (L := L1) r svc port w1 svcPort items l1 y). }
  destruct (Hport e He) as (Hpe & q & Hq & Hall).
  destruct (Hport e' He') as (Hpe' & _).
  specialize (Hall e' He').
  destruct e as [[a p] proto], e' as [[a' p'] proto']. simpl in *. congruence.
Qed.

End TwoRuns.

(** C8 is false as stated: on this input the two runtimes return the same
    two entries in opposite orders. *)
Lemma buildEndpoints_order_not_determined :
  (buildEndpoints (L := golib) demo3.tieCluster demo3.api demo.port80
     (demo.start registry.empty)).1 = Ok [demo3.at9090; demo3.at8080]
  ∧ (buildEndpoints (L := golib') demo3.tieCluster demo3.api demo.port80
       (demo.start registry.empty)).1 = Ok [demo3.at8080; demo3.at9090]
  ∧ (buildEndpoints (L := golib) demo3.tieCluster demo3.api demo.port80
       (demo.start registry.empty)).1
    ≠ (buildEndpoints (L := golib') demo3.tieCluster demo3.api demo.port80
         (demo.start registry.empty)).1.
Proof.
  split; [vm_compute; reflexivity|]. split; [vm_compute; reflexivity|].
  vm_compute. discriminate.
Qed.

Lemma buildEndpoints_determined_up_to_ties_witness :
  match (buildEndpoints (L := golib) demo3.tieCluster demo3.api demo.port80
           (demo.start registry.empty)).1,
        (buildEndpoints (L := golib') demo3.tieCluster demo3.api demo.port80
           (demo.start registry.empty)).1 with
  | Ok l1, Ok l2 =>
      l1 ≡ₚ l2 ∧ sortedByAddr l1 ∧ sortedByAddr l2
      ∧ ((∀ e e', e ∈ l1 → e' ∈ l1 →
            (graph.AddrPort e).1 = (graph.AddrPort e').1 → e = e') → l1 = l2)
      ∧ (internal.AddressSource' (config demo3.tieCluster)
         = internal.AddressSourceNode → l1 = l2)
  | Err e1, Err e2 => e1 = e2
  | _, _ => False
  end.
Proof.
  apply (buildEndpoints_determined_up_to_ties golib golib' demo3.tieCluster).
  intros s. reflexivity.
Defined.

(** ** Reconcile *)

Lemma logged_logged {G} (w : World G) cs cs' :
  logged (logged w cs) cs' = logged w (cs ++ cs').
Proof. unfold logged. simpl. by rewrite app_assoc. Qed.

Lemma logged_nil {G} (w : World G) : logged w [] = w.
Proof. destruct w. unfold logged. simpl. by rewrite app_nil_r. Qed.

Lemma forRange_cons {G S A} (body : S → A → M G S) s x l (w : World G) :
  forRange body s (x :: l) w
  = match body s x w with
    | (Ok s', w') => forRange body s' l w'
    | (Err e, w') => (Err e, w')
    end.
Proof. reflexivity. Qed.

(* a loop with an invariant over the elements already processed *)
Lemma forRange_ind {G S A} (body : S → A → M G S) (I : list A → S → Prop) l :
  (∀ done x s w s' w', I done s → body s x w = (Ok s', w') → I (done ++ [x]) s') →
  ∀ s w s' w', I [] s → forRange body s l w = (Ok s', w') → I l s'.
Proof.
  intros Hstep.
  assert (Hgen : ∀ done s w s' w',
             I done s → forRange body s l w = (Ok s', w') → I (done ++ l) s').
  { induction l as [|x l IH]; intros done s w s' w' HI; simpl.
    - unfold_M. intros [= <- _]. by rewrite app_nil_r.
    - unfold_M. destruct (body s x w) as [[s1|e] w1] eqn:Hb; [|done].
      intros Hrest. replace (done ++ x :: l) with ((done ++ [x]) ++ l)
        by (by rewrite <- app_assoc).
      eapply IH; [|exact Hrest]. eapply Hstep; eauto. }
  intros s w s' w' HI Hrun. by apply (Hgen [] s w s' w').
Qed.

Section ReconcileFacts.
Context {G : Type} {SG : ServiceGraph G} {L : GoLib}.
Variable r : ServiceReconciler.

Lemma forReturn_cons {A R} (body : A → M G (option R)) x l (w : World G) :
  forReturn body (x :: l) w
  = match body x w with
    | (Ok (Some v), w') => (Ok (Some v), w')
    | (Ok None, w') => forReturn body l w'
    | (Err e, w') => (Err e, w')
    end.
Proof. simpl. unfold_M. by destruct (body x w) as [[[v|]|e] w']. Qed.

Lemma conflictBody_run req svc p (w : World G) :
  conflictBody req svc p w
  = if Conflicts (w_graph w) req p
    then (Ok (Some {| ctrl.RequeueAfter := 1 * time_Minute |}),
          logged w [CallConflicts req p; conflictEvent svc p])
    else (Ok None, logged w [CallConflicts req p]).
Proof.
  unfold conflictBody, graph_Conflicts, Eventf. unfold_M. simpl.
  destruct (Conflicts (w_graph w) req p); [|done].
  unfold logged. simpl. by rewrite <- app_assoc.
Qed.

Lemma probe_none req svc ports (w : World G) :
  (∀ p, p ∈ ports → Conflicts (w_graph w) req p = false) →
  forReturn (conflictBody req svc) ports w
  = (Ok None, logged w (CallConflicts req <$> ports)).
Proof.
  revert w. induction ports as [|p ports IH]; intros w Hfree.
  - simpl. unfold_M. by rewrite logged_nil.
  - rewrite forReturn_cons, conflictBody_run, (Hfree p) by left.
    rewrite IH; [by rewrite logged_logged|].
    intros q Hq. simpl. apply Hfree. by right.
Qed.

Lemma probe_some req svc pre p post (w : World G) :
  (∀ q, q ∈ pre → Conflicts (w_graph w) req q = false) →
  Conflicts (w_graph w) req p = true →
  forReturn (conflictBody req svc) (pre ++ p :: post) w
  = (Ok (Some {| ctrl.RequeueAfter := 1 * time_Minute |}),
     logged w ((CallConflicts req <$> pre ++ [p]) ++ [conflictEvent svc p])).
Proof.
  revert w. induction pre as [|q pre IH]; intros w Hfree Hp.
  - simpl app. by rewrite forReturn_cons, conflictBody_run, Hp.
  - simpl app. rewrite forReturn_cons, conflictBody_run, (Hfree q) by left.
    rewrite IH; [by rewrite logged_logged| |done].
    intros q' Hq'. simpl. apply Hfree. by right.
Qed.

Lemma first_conflict (g : G) req ports p :
  p ∈ ports → Conflicts g req p = true →
  ∃ pre p' post, ports = pre ++ p' :: post
                 ∧ (∀ q, q ∈ pre → Conflicts g req q = false)
                 ∧ Conflicts g req p' = true.
Proof.
  induction ports as [|q ports IH]; [by intros ?%elem_of_nil|].
  intros Hin Hp. destruct (Conflicts g req q) eqn:Hq.
  - exists [], q, ports. split; [done|]. split; [|done]. by intros ? ?%elem_of_nil.
  - apply elem_of_cons in Hin as [->|Hin]; [congruence|].
    destruct (IH Hin Hp) as (pre & p' & post & -> & Hfree & Hp').
    exists (q :: pre), p', post. split; [done|]. split; [|done].
    intros q' [->|Hq']%elem_of_cons; eauto.
Qed.

(** C1: for a managed Service one of whose accepted ports conflicts, Reconcile
    probes the ports up to the first conflicting one, records a warning that
    names that port, and returns a requeue after one minute with no error;
    the registry is unchanged and the pass lists no EndpointSlices, fetches
    no Node and calls neither UpdateService nor RemoveService. *)
Theorem Reconcile_conflict req svc port (w : World G) :
  client.GetService (Client r) req = Ok svc →
  shouldManage r svc = true →
  port ∈ getServicePorts svc →
  Conflicts (w_graph w) req port = true →
  ∃ pre port' post,
    getServicePorts svc = pre ++ port' :: post
    ∧ Conflicts (w_graph w) req port' = true
    ∧ Reconcile r req w
      = (Ok {| ctrl.RequeueAfter := 1 * time_Minute |},
         logged w (CallGetService req :: (CallConflicts req <$> pre ++ [port'])
                   ++ [conflictEvent svc port']))
    ∧ w_graph (Reconcile r req w).2 = w_graph w
    ∧ ∀ c, c ∈ CallGetService req :: (CallConflicts req <$> pre ++ [port'])
                 ++ [conflictEvent svc port'] →
           isResolution c = false ∧ isMutation c = false.
Proof.
  intros Hget Hmanage Hin Hconf.
  destruct (first_conflict _ _ _ _ Hin Hconf) as (pre & p' & post & Hports & Hfree & Hp').
  exists pre, p', post. split; [done|]. split; [done|].
  assert (Hrun : Reconcile r req w
      = (Ok {| ctrl.RequeueAfter := 1 * time_Minute |},
         logged w (CallGetService req :: (CallConflicts req <$> pre ++ [p'])
                   ++ [conflictEvent svc p']))).
  { unfold Reconcile, Get_Service. unfold_M. simpl. rewrite Hget, Hmanage. simpl.
    rewrite Hports.
    change {| w_graph := w_graph w; w_calls := w_calls w ++ [CallGetService req];
              w_ranges := w_ranges w |} with (logged w [CallGetService req]).
    rewrite probe_some by done. by rewrite logged_logged. }
  split; [done|]. split; [by rewrite Hrun|].
  intros c [->|Hc]%elem_of_cons; [done|].
  apply elem_of_app in Hc as [Hc|Hc].
  - apply list_elem_of_fmap in Hc as (q & -> & _). done.
  - apply list_elem_of_singleton in Hc as ->. done.
Qed.

End ReconcileFacts.

Section BuildServiceData.
Context {G : Type} {L : GoLib}.
Variable r : ServiceReconciler.

Lemma getServicePorts_loop_elem ps acc p :
  p ∈ getServicePorts_loop ps acc
  ↔ p ∈ acc ∨ ∃ sp, sp ∈ ps ∧ accepted sp ∧ p = portOf sp.
Proof.
  revert acc. induction ps as [|sp ps IH]; intros acc; simpl.
  - split; [by left|]. intros [?|(? & ?%elem_of_nil & _)]; done.
  - unfold accepted, portOf, corev1.ProtocolTCP, corev1.ProtocolUDP, graph.TCP, graph.UDP.
    destruct (String.eqb_spec (corev1.Protocol sp) "TCP") as [Ht|Ht];
      [|destruct (String.eqb_spec (corev1.Protocol sp) "UDP") as [Hu|Hu]];
      rewrite IH; try rewrite elem_of_app, list_elem_of_singleton.
    + split.
      * intros [[?| ->]|(sp' & Hin & Hacc & ->)]; [by left|right..].
        -- exists sp. rewrite Ht. split; [left|]. eauto.
        -- exists sp'. split; [by right|]. eauto.
      * intros [?|(sp' & [->|Hin]%elem_of_cons & Hacc & ->)]; [by left; left| |].
        -- left. right. by rewrite Ht.
        -- right. exists sp'. eauto.
    + split.
      * intros [[?| ->]|(sp' & Hin & Hacc & ->)]; [by left|right..].
        -- exists sp. rewrite Hu. split; [left|]. eauto.
        -- exists sp'. split; [by right|]. eauto.
      * intros [?|(sp' & [->|Hin]%elem_of_cons & Hacc & ->)]; [by left; left| |].
        -- left. right. by rewrite Hu.
        -- right. exists sp'. eauto.
    + split.
      * intros [?|(sp' & Hin & Hacc & ->)]; [by left|right].
        exists sp'. split; [by right|]. eauto.
      * intros [?|(sp' & [->|Hin]%elem_of_cons & Hacc & ->)]; [by left| |].
        -- by destruct Hacc.
        -- right. exists sp'. eauto.
Qed.

(* the accepted ports are the TCP and UDP ports of the Service *)
Lemma getServicePorts_elem svc p :
  p ∈ getServicePorts svc
  ↔ ∃ sp, sp ∈ corev1.Spec_Ports svc ∧ accepted sp ∧ p = portOf sp.
Proof.
  unfold getServicePorts. rewrite getServicePorts_loop_elem.
  split; [intros [?%elem_of_nil|?]; done|by right].
Qed.

Lemma buildEndpoints_readsOnly svc port (w : World G) :
  readsOnly w (buildEndpoints r svc port w).2.
Proof.
  rewrite buildEndpoints_run.
  pose proof (collectEndpoints_readsOnly r svc port w) as Hc.
  destruct (collectEndpoints r svc port w) as [[ips|e] w']; [|done].
  rewrite orderEndpoints_run. done.
Qed.

Lemma sourceRangeBody_run acc s (w : World G) :
  sourceRangeBody acc s w
  = match ParsePrefix s with
    | Some p => (Ok (acc ++ [p]), w)
    | None => (Err (ErrParsePrefix s), w)
    end.
Proof. unfold sourceRangeBody. by destruct (ParsePrefix s). Qed.

(* the loop over the source ranges touches nothing and parses every entry *)
Lemma sourceRanges_run acc ranges (w : World G) :
  ∃ res, forRange sourceRangeBody acc ranges w = (res, w)
         ∧ (∀ out, res = Ok out →
              ∃ ps, out = acc ++ ps
                    ∧ Forall2 (λ s p, ParsePrefix s = Some p) ranges ps)
         ∧ (∀ s, s ∈ ranges → ParsePrefix s = None →
              ∃ s', res = Err (ErrParsePrefix s') ∧ ParsePrefix s' = None).
Proof.
  revert acc. induction ranges as [|s ranges IH]; intros acc.
  - eexists. split; [reflexivity|]. split.
    + intros out [= <-]. exists []. by rewrite app_nil_r.
    + by intros s ?%elem_of_nil.
  - rewrite forRange_cons, sourceRangeBody_run.
    destruct (ParsePrefix s) as [p|] eqn:Hp.
    + destruct (IH (acc ++ [p])) as (res & Hrun & Hok & Herr).
      exists res. split; [done|]. split.
      * intros out Hout. destruct (Hok out Hout) as (ps & -> & Hps).
        exists (p :: ps). rewrite <- app_assoc. split; [done|]. by constructor.
      * intros s' [->|Hin]%elem_of_cons Hs'; [congruence|eauto].
    + eexists. split; [reflexivity|]. split; [done|]. eauto.
Qed.

Lemma buildServiceData_readsOnly svc ports (w : World G) :
  readsOnly w (buildServiceData r svc ports w).2.
Proof.
  unfold buildServiceData. unfold_M.
  destruct (parseIdleTimeout svc) as [idle|]; [|apply readsOnly_refl].
  assert (Hranges : ∃ res,
    (if decide (0 < length (corev1.Spec_LoadBalancerSourceRanges svc))%nat
     then forRange sourceRangeBody [] (corev1.Spec_LoadBalancerSourceRanges svc)
     else λ w, (Ok [], w)) w = (res, w)).
  { destruct (decide _); [|eauto].
    destruct (sourceRanges_run [] (corev1.Spec_LoadBalancerSourceRanges svc) w)
      as (res & Hres & _). eauto. }
  destruct Hranges as [res ->]. destruct res as [ranges|]; [|apply readsOnly_refl].
  apply forRange_readsOnly. intros data port w'. unfold portBody. unfold_M.
  pose proof (buildEndpoints_readsOnly svc port w') as Hb.
  by destruct (buildEndpoints r svc port w') as [[eps|] w''].
Qed.

(* a malformed idle timeout or source range fails before anything is read *)
Lemma buildServiceData_malformed svc ports (w : World G) :
  (annotation svc idleTimeoutAnnotation ≠ ""
   ∧ ParseDuration (annotation svc idleTimeoutAnnotation) = None)
  ∨ (∃ s, s ∈ corev1.Spec_LoadBalancerSourceRanges svc ∧ ParsePrefix s = None) →
  ∃ s, (buildServiceData r svc ports w = (Err (ErrParseDuration s), w)
        ∧ ParseDuration s = None)
       ∨ (buildServiceData r svc ports w = (Err (ErrParsePrefix s), w)
          ∧ ParsePrefix s = None).
Proof.
  intros Hbad. unfold buildServiceData, parseIdleTimeout. unfold_M.
  destruct (String.eqb_spec (annotation svc idleTimeoutAnnotation) "") as [He|Hne];
    simpl.
  - destruct Hbad as [[? _]|(s & Hs & Hparse)]; [done|].
    destruct (decide _) as [_|Hlen].
    + destruct (sourceRanges_run [] (corev1.Spec_LoadBalancerSourceRanges svc) w)
        as (res & -> & _ & Herr).
      destruct (Herr s Hs Hparse) as (s' & -> & Hs'). exists s'. by right.
    + destruct (corev1.Spec_LoadBalancerSourceRanges svc); [|simpl in Hlen; lia].
      by apply elem_of_nil in Hs.
  - destruct (ParseDuration (annotation svc idleTimeoutAnnotation)) as [d|] eqn:Hd.
    + destruct Hbad as [[_ ?]|(s & Hs & Hparse)]; [done|].
      destruct (decide _) as [_|Hlen].
      * destruct (sourceRanges_run [] (corev1.Spec_LoadBalancerSourceRanges svc) w)
          as (res & -> & _ & Herr).
        destruct (Herr s Hs Hparse) as (s' & -> & Hs'). exists s'. by right.
      * destruct (corev1.Spec_LoadBalancerSourceRanges svc); [|simpl in Hlen; lia].
        by apply elem_of_nil in Hs.
    + exists (annotation svc idleTimeoutAnnotation). by left.
Qed.

(* what a successful build stores: exactly the given ports, each with the
   Service-wide settings and the endpoints the resolver returned for it *)
Lemma buildServiceData_Ok svc ports (w w' : World G) data :
  buildServiceData r svc ports w = (Ok data, w') →
  (∀ p, p ∈ ports ↔ is_Some (graph.Ports data !! p))
  ∧ (∀ p pd, graph.Ports data !! p = Some pd →
       portSettings svc pd
       ∧ ∃ w0 : World G, (buildEndpoints r svc p w0).1 = Ok (graph.Endpoints pd)).
Proof.
  unfold buildServiceData, parseIdleTimeout. unfold_M.
  set (upp := String.eqb (annotation svc proxyProtocolAnnotation) "true").
  set (a := annotation svc idleTimeoutAnnotation).
  assert (Hidle : ∀ idle,
    (if negb (String.eqb a "")
     then match ParseDuration a with
          | Some dur => Ok (Some dur)
          | None => Err (ErrParseDuration a)
          end
     else Ok None) = Ok idle →
    idle = if String.eqb a "" then None else ParseDuration a).
  { intros idle. destruct (String.eqb a ""); simpl; [congruence|].
    destruct (ParseDuration a); congruence. }
  destruct (if negb (String.eqb a "") then _ else _) as [idle|]; [|done].
  specialize (Hidle idle eq_refl).
  assert (Hranges : ∃ res,
    (if decide (0 < length (corev1.Spec_LoadBalancerSourceRanges svc))%nat
     then forRange sourceRangeBody [] (corev1.Spec_LoadBalancerSourceRanges svc)
     else λ w, (Ok [], w)) w = (res, w)
    ∧ ∀ out, res = Ok out →
        Forall2 (λ s p, ParsePrefix s = Some p)
          (corev1.Spec_LoadBalancerSourceRanges svc) out).
  { destruct (decide _) as [_|Hlen].
    - destruct (sourceRanges_run [] (corev1.Spec_LoadBalancerSourceRanges svc) w)
        as (res & Hres & Hok & _).
      exists res. split; [done|]. intros out Hout.
      by destruct (Hok out Hout) as (ps & -> & Hps).
    - eexists. split; [reflexivity|]. intros out [= <-].
      destruct (corev1.Spec_LoadBalancerSourceRanges svc); [constructor|simpl in Hlen; lia]. }
  destruct Hranges as (res & -> & Hres). destruct res as [ranges|]; [|done].
  specialize (Hres ranges eq_refl). intros Hrun.
  apply (forRange_ind (portBody r svc upp idle ranges)
           (λ done data,
              (∀ p, p ∈ done ↔ is_Some (graph.Ports data !! p))
              ∧ (∀ p pd, graph.Ports data !! p = Some pd →
                   portSettings svc pd
                   ∧ ∃ w0 : World G,
                       (buildEndpoints r svc p w0).1 = Ok (graph.Endpoints pd))))
    in Hrun; [done| |].
  - clear Hrun. intros done x s w1 s' w1' [Hdom Hset]. unfold portBody. unfold_M.
    destruct (buildEndpoints r svc x w1) as [[eps|] w2] eqn:Hb; [|done].
    intros [= <- <-]. simpl. split.
    + intros p. rewrite elem_of_app, list_elem_of_singleton, lookup_insert_is_Some.
      rewrite Hdom. destruct (decide (x = p)); naive_solver.
    + intros p pd. destruct (decide (x = p)) as [->|Hne].
      * rewrite lookup_insert_eq. intros [= <-]. split; [done|].
        exists w1. by rewrite Hb.
      * rewrite lookup_insert_ne by done. apply Hset.
  - simpl. split.
    + intros p. rewrite lookup_empty. split; [by intros ?%elem_of_nil|by intros [? ?]].
    + intros p pd. by rewrite lookup_empty.
Qed.

End BuildServiceData.

Section ReconcileCommit.
Context {G : Type} {SG : ServiceGraph G} {L : GoLib}.
Variable r : ServiceReconciler.

(* a managed Service without conflicts: build, then commit, then status *)
Lemma Reconcile_managed_free req svc (w : World G) :
  client.GetService (Client r) req = Ok svc →
  shouldManage r svc = true →
  (∀ p, p ∈ getServicePorts svc → Conflicts (w_graph w) req p = false) →
  Reconcile r req w
  = match buildServiceData r svc (getServicePorts svc) (probed req svc w) with
    | (Err e, w1) => (Err e, w1)
    | (Ok data, w1) =>
        (match client.StatusUpdate (Client r) (statusOf r svc) with
         | Some err => Err err
         | None => Ok ctrl.empty
         end,
         {| w_graph := UpdateService (w_graph w) req data;
            w_calls := w_calls w1
                       ++ [CallUpdateService req data; CallStatusUpdate (statusOf r svc)];
            w_ranges := w_ranges w1 |})
    end.
Proof.
  intros Hget Hmanage Hfree.
  unfold Reconcile, Get_Service. unfold_M. simpl. rewrite Hget, Hmanage. simpl.
  change {| w_graph := w_graph w; w_calls := w_calls w ++ [CallGetService req];
            w_ranges := w_ranges w |} with (logged w [CallGetService req]).
  rewrite probe_none by done. rewrite logged_logged.
  change (logged w ([CallGetService req] ++ (CallConflicts req <$> getServicePorts svc)))
    with (probed req svc w).
  pose proof (buildServiceData_readsOnly r svc (getServicePorts svc) (probed req svc w))
    as [Hg _].
  destruct (buildServiceData r svc (getServicePorts svc) (probed req svc w))
    as [[data|e] w1]; [|done].
  simpl in Hg. unfold graph_UpdateService, updateStatus, Status_Update. unfold_M. simpl.
  fold (statusOf r svc). rewrite Hg, <- app_assoc. simpl.
  by destruct (client.StatusUpdate (Client r) (statusOf r svc)).
Qed.

(** C3, as amended: for a Service that is found, managed and free of port
    conflicts, an idle-timeout annotation that is not empty and does not
    parse, or a source range that does not parse, makes Reconcile return that
    parse error before anything is resolved or committed: the only calls are
    the fetch of the Service and the conflict probes, and the registry is the
    one Reconcile started with. *)
Theorem Reconcile_malformed_settings req svc (w : World G) :
  client.GetService (Client r) req = Ok svc →
  shouldManage r svc = true →
  (∀ p, p ∈ getServicePorts svc → Conflicts (w_graph w) req p = false) →
  (annotation svc idleTimeoutAnnotation ≠ ""
   ∧ ParseDuration (annotation svc idleTimeoutAnnotation) = None)
  ∨ (∃ s, s ∈ corev1.Spec_LoadBalancerSourceRanges svc ∧ ParsePrefix s = None) →
  ∃ e, Reconcile r req w = (Err e, probed req svc w)
       ∧ (∃ s, (e = ErrParseDuration s ∧ ParseDuration s = None)
               ∨ (e = ErrParsePrefix s ∧ ParsePrefix s = None))
       ∧ w_graph (Reconcile r req w).2 = w_graph w
       ∧ ∀ c, c ∈ CallGetService req :: (CallConflicts req <$> getServicePorts svc) →
              isMutation c = false ∧ isResolution c = false.
Proof.
  intros Hget Hmanage Hfree Hbad.
  rewrite (Reconcile_managed_free req svc w Hget Hmanage Hfree).
  destruct (buildServiceData_malformed r svc (getServicePorts svc) (probed req svc w) Hbad)
    as (s & [[-> Hs]|[-> Hs]]).
  - exists (ErrParseDuration s). split; [done|]. split; [eauto|]. split; [done|].
    intros c [->|(q & -> & _)%list_elem_of_fmap]%elem_of_cons; done.
  - exists (ErrParsePrefix s). split; [done|]. split; [eauto|]. split; [done|].
    intros c [->|(q & -> & _)%list_elem_of_fmap]%elem_of_cons; done.
Qed.

(** C9: when the data is built and the status write then fails, Reconcile
    returns the error of the status write; the registry it leaves is the one
    UpdateService produced from the registry it started with, and the call of
    UpdateService is recorded immediately before the status write. *)
Theorem Reconcile_status_failure req svc data err (w : World G) :
  client.GetService (Client r) req = Ok svc →
  shouldManage r svc = true →
  (∀ p, p ∈ getServicePorts svc → Conflicts (w_graph w) req p = false) →
  (buildServiceData r svc (getServicePorts svc) (probed req svc w)).1 = Ok data →
  client.StatusUpdate (Client r) (statusOf r svc) = Some err →
  Reconcile r req w
  = (Err err,
     {| w_graph := UpdateService (w_graph w) req data;
        w_calls :=
          w_calls (buildServiceData r svc (getServicePorts svc) (probed req svc w)).2
          ++ [CallUpdateService req data; CallStatusUpdate (statusOf r svc)];
        w_ranges :=
          w_ranges (buildServiceData r svc (getServicePorts svc) (probed req svc w)).2 |}).
Proof.
  intros Hget Hmanage Hfree Hdata Hstatus.
  rewrite (Reconcile_managed_free req svc w Hget Hmanage Hfree).
  destruct (buildServiceData r svc (getServicePorts svc) (probed req svc w))
    as [[data'|e] w1]; simpl in *; [|done].
  injection Hdata as ->. by rewrite Hstatus.
Qed.

(** C10: when the reconciliation of a managed Service without conflicts
    succeeds, the registry it leaves is the one UpdateService produced for the
    built data, and that data has an entry for every TCP or UDP port of the
    Service (and for no other port), each with the Service-wide proxy-protocol
    flag, idle timeout and allow-list, and with whatever list the resolver
    returned for the port, empty or not. *)
Theorem Reconcile_commits_every_port req svc res (w w' : World G) :
  client.GetService (Client r) req = Ok svc →
  shouldManage r svc = true →
  (∀ p, p ∈ getServicePorts svc → Conflicts (w_graph w) req p = false) →
  Reconcile r req w = (Ok res, w') →
  ∃ data,
    w_graph w' = UpdateService (w_graph w) req data
    ∧ CallUpdateService req data ∈ w_calls w'
    ∧ (∀ sp, sp ∈ corev1.Spec_Ports svc → accepted sp →
         ∃ pd, graph.Ports data !! portOf sp = Some pd
               ∧ portSettings svc pd
               ∧ ∃ w0 : World G,
                   (buildEndpoints r svc (portOf sp) w0).1 = Ok (graph.Endpoints pd))
    ∧ (∀ p, is_Some (graph.Ports data !! p) →
         ∃ sp, sp ∈ corev1.Spec_Ports svc ∧ accepted sp ∧ p = portOf sp).
Proof.
  intros Hget Hmanage Hfree.
  rewrite (Reconcile_managed_free req svc w Hget Hmanage Hfree).
  destruct (buildServiceData r svc (getServicePorts svc) (probed req svc w))
    as [[data|e] w1] eqn:Hbuild; [|done].
  intros [= _ <-]. simpl.
  destruct (buildServiceData_Ok r svc _ _ _ _ Hbuild) as [Hdom Hset].
  exists data. split; [done|]. split.
  { apply elem_of_app. right. left. }
  split.
  - intros sp Hsp Hacc.
    destruct (proj1 (Hdom (portOf sp))) as [pd Hpd].
    { apply getServicePorts_elem. eauto. }
    exists pd. split; [done|]. by apply Hset.
  - intros p Hp. by apply getServicePorts_elem, Hdom.
Qed.

End ReconcileCommit.

(* spec example, end to end: the committed data of "web" in Node mode *)
Example Reconcile_web_committed :
  (Reconcile (L := golib) demo.nodeCluster (demo.key "web")
     (demo.start registry.empty)).1 = Ok ctrl.empty
  ∧ registry.owners (w_graph (Reconcile (L := golib) demo.nodeCluster
                                (demo.key "web") (demo.start registry.empty)).2)
      !! demo.key "web" = Some demo4.webData
  ∧ registry.index (w_graph (Reconcile (L := golib) demo.nodeCluster
                               (demo.key "web") (demo.start registry.empty)).2)
      !! demo.port80 = Some (demo.key "web").
Proof. vm_compute. done. Qed.

(* spec example: idle-timeout "30s" is stored on the accepted ports *)
Example Reconcile_multi_idle :
  (λ data, graph.IdleTimeout <$> (map_to_list (graph.Ports data)).*2)
    <$> registry.owners (w_graph (Reconcile (L := golib) demo4.settingsCluster
                                    (demo.key "multi") (demo.start registry.empty)).2)
          !! demo.key "multi"
  = Some [Some 30000000000; Some 30000000000].
Proof. vm_compute. reflexivity. Qed.

Lemma Reconcile_conflict_witness :
  ∃ pre port' post,
    getServicePorts demo.web = pre ++ port' :: post
    ∧ Conflicts demo4.taken (demo.key "web") port' = true
    ∧ Reconcile (L := golib) demo.nodeCluster (demo.key "web") (demo.start demo4.taken)
      = (Ok {| ctrl.RequeueAfter := 1 * time_Minute |},
         logged (demo.start demo4.taken)
           (CallGetService (demo.key "web")
            :: (CallConflicts (demo.key "web") <$> pre ++ [port'])
            ++ [conflictEvent demo.web port']))
    ∧ w_graph (Reconcile (L := golib) demo.nodeCluster (demo.key "web")
                 (demo.start demo4.taken)).2 = demo4.taken
    ∧ ∀ c, c ∈ CallGetService (demo.key "web")
                 :: (CallConflicts (demo.key "web") <$> pre ++ [port'])
                 ++ [conflictEvent demo.web port'] →
           isResolution c = false ∧ isMutation c = false.
Proof.
  apply (Reconcile_conflict (L := golib) demo.nodeCluster (demo.key "web")
           demo.web demo.port80 (demo.start demo4.taken)).
  - reflexivity.
  - reflexivity.
  - left.
  - vm_compute. reflexivity.
Defined.

(* the warning names the port: "80/TCP" *)
Example Reconcile_conflict_event :
  last (w_calls (Reconcile (L := golib) demo.nodeCluster (demo.key "web")
                   (demo.start demo4.taken)).2)
  = Some (CallEventf demo.web "Warning" "Conflict" conflictMessage ["80/TCP"]).
Proof. vm_compute. reflexivity. Qed.

(** C3 is false as stated, in three ways: an idle-timeout annotation holding
    the empty string (which is not a duration) is taken as absent, and the
    reconciliation succeeds and commits; a Service that is not managed, or
    one of whose ports conflicts, is never parsed, and Reconcile returns
    without an error. *)
Lemma Reconcile_malformed_not_always_fatal :
  (corev1.Annotations demo4.quiet !! idleTimeoutAnnotation = Some ""
   ∧ ParseDuration (GoLib := golib) "" = None
   ∧ (Reconcile (L := golib) demo4.settingsCluster (demo.key "quiet")
        (demo.start registry.empty)).1 = Ok ctrl.empty
   ∧ is_Some (registry.owners
                (w_graph (Reconcile (L := golib) demo4.settingsCluster
                            (demo.key "quiet") (demo.start registry.empty)).2)
              !! demo.key "quiet"))
  ∧ (corev1.Annotations demo4.inner !! idleTimeoutAnnotation = Some "30x"
     ∧ ParseDuration (GoLib := golib) "30x" = None
     ∧ (Reconcile (L := golib) demo4.settingsCluster (demo.key "inner")
          (demo.start registry.empty)).1 = Ok ctrl.empty)
  ∧ (corev1.Annotations demo4.hasty !! idleTimeoutAnnotation = Some "30x"
     ∧ (Reconcile (L := golib) demo4.settingsCluster (demo.key "hasty")
          (demo.start demo4.taken)).1 = Ok {| ctrl.RequeueAfter := 1 * time_Minute |}).
Proof.
  repeat split; try (vm_compute; reflexivity).
  vm_compute. eauto.
Qed.

(* spec example: idle-timeout "30x" fails the reconciliation *)
Example Reconcile_hasty :
  Reconcile (L := golib) demo4.settingsCluster (demo.key "hasty")
    (demo.start registry.empty)
  = (Err (ErrParseDuration "30x"),
     probed (demo.key "hasty") demo4.hasty (demo.start registry.empty)).
Proof. vm_compute. reflexivity. Qed.

Example Reconcile_fenced :
  Reconcile (L := golib) demo4.settingsCluster (demo.key "fenced")
    (demo.start registry.empty)
  = (Err (ErrParsePrefix "banana"),
     probed (demo.key "fenced") demo4.fenced (demo.start registry.empty)).
Proof. vm_compute. reflexivity. Qed.

Lemma Reconcile_malformed_settings_witness :
  ∃ e, Reconcile (L := golib) demo4.settingsCluster (demo.key "hasty")
         (demo.start registry.empty)
       = (Err e, probed (demo.key "hasty") demo4.hasty (demo.start registry.empty))
       ∧ (∃ s, (e = ErrParseDuration s ∧ ParseDuration (GoLib := golib) s = None)
               ∨ (e = ErrParsePrefix s ∧ ParsePrefix (GoLib := golib) s = None))
       ∧ w_graph (Reconcile (L := golib) demo4.settingsCluster (demo.key "hasty")
                    (demo.start registry.empty)).2
         = w_graph (demo.start registry.empty)
       ∧ ∀ c, c ∈ CallGetService (demo.key "hasty")
                    :: (CallConflicts (demo.key "hasty") <$> getServicePorts demo4.hasty) →
              isMutation c = false ∧ isResolution c = false.
Proof.
  apply (Reconcile_malformed_settings (L := golib) demo4.settingsCluster
           (demo.key "hasty") demo4.hasty (demo.start registry.empty)).
  - reflexivity.
  - reflexivity.
  - intros p _. reflexivity.
  - left. split; [discriminate|reflexivity].
Defined.

Lemma Reconcile_status_failure_witness :
  Reconcile (L := golib) demo4.stubbornCluster (demo.key "web")
    (demo.start registry.empty)
  = (Err (ErrAPI "the object has been modified"),
     {| w_graph := UpdateService registry.empty (demo.key "web") demo4.webData;
        w_calls :=
          w_calls (buildServiceData (L := golib) demo4.stubbornCluster demo.web
                     (getServicePorts demo.web)
                     (probed (demo.key "web") demo.web (demo.start registry.empty))).2
          ++ [CallUpdateService (demo.key "web") demo4.webData;
              CallStatusUpdate (statusOf (L := golib) demo4.stubbornCluster demo.web)];
        w_ranges :=
          w_ranges (buildServiceData (L := golib) demo4.stubbornCluster demo.web
                      (getServicePorts demo.web)
                      (probed (demo.key "web") demo.web (demo.start registry.empty))).2 |}).
Proof.
  apply (Reconcile_status_failure (L := golib) demo4.stubbornCluster
           (demo.key "web") demo.web demo4.webData
           (ErrAPI "the object has been modified") (demo.start registry.empty)).
  - reflexivity.
  - reflexivity.
  - intros p _. reflexivity.
  - vm_compute. reflexivity.
  - reflexivity.
Defined.

(* the commit survives the failed status write *)
Example Reconcile_stubborn_committed :
  registry.owners (w_graph (Reconcile (L := golib) demo4.stubbornCluster
                              (demo.key "web") (demo.start registry.empty)).2)
    !! demo.key "web" = Some demo4.webData.
Proof. vm_compute. reflexivity. Qed.

Lemma Reconcile_commits_every_port_witness :
  ∃ data,
    w_graph (Reconcile (L := golib) demo4.settingsCluster (demo.key "multi")
               (demo.start registry.empty)).2
    = UpdateService (w_graph (demo.start registry.empty)) (demo.key "multi") data
    ∧ CallUpdateService (demo.key "multi") data
      ∈ w_calls (Reconcile (L := golib) demo4.settingsCluster (demo.key "multi")
                   (demo.start registry.empty)).2
    ∧ (∀ sp, sp ∈ corev1.Spec_Ports demo4.multi → accepted sp →
         ∃ pd, graph.Ports data !! portOf sp = Some pd
               ∧ portSettings (L := golib) demo4.multi pd
               ∧ ∃ w0 : World registry.State,
                   (buildEndpoints (L := golib) demo4.settingsCluster demo4.multi
                      (portOf sp) w0).1 = Ok (graph.Endpoints pd))
    ∧ (∀ p, is_Some (graph.Ports data !! p) →
         ∃ sp, sp ∈ corev1.Spec_Ports demo4.multi ∧ accepted sp ∧ p = portOf sp).
Proof.
  apply (Reconcile_commits_every_port (L := golib) demo4.settingsCluster
           (demo.key "multi") demo4.multi ctrl.empty (demo.start registry.empty)).
  - reflexivity.
  - reflexivity.
  - intros p _. reflexivity.
  - vm_compute. reflexivity.
Defined.

(* the two accepted ports of "multi" are committed with empty endpoint lists *)
Example Reconcile_multi_empty_endpoints :
  (λ data, (λ e, (graph.Port e.1, graph.Protocol e.1, graph.Endpoints e.2))
           <$> map_to_list (graph.Ports data))
    <$> registry.owners (w_graph (Reconcile (L := golib) demo4.settingsCluster
                                    (demo.key "multi") (demo.start registry.empty)).2)
          !! demo.key "multi"
  = Some [(53, "UDP", []); (80, "TCP", [])].
Proof. vm_compute. reflexivity. Qed.

(** ** The exposure registry: port ownership *)

Module registry_lemmas.
Import registry_facts.

Lemma commitConflict_false g owner data q :
  registry.commitConflict g owner data = false →
  is_Some (graph.Ports data !! q) → registry.Conflicts g owner q = false.
Proof.
  unfold registry.commitConflict. intros Hno Hq.
  apply bool_decide_eq_false in Hno.
  destruct (registry.Conflicts g owner q) eqn:Hc; [|done].
  exfalso. apply Hno. exists q. split; [by apply elem_of_dom|done].
Qed.

Lemma Conflicts_true g owner p :
  registry.Conflicts g owner p = true
  ↔ ∃ k, registry.index g !! p = Some k ∧ k ≠ owner.
Proof.
  unfold registry.Conflicts. destruct (registry.index g !! p) as [k|].
  - rewrite bool_decide_eq_true. naive_solver.
  - naive_solver.
Qed.

Lemma Conflicts_false g owner p :
  registry.Conflicts g owner p = false
  ↔ ∀ k, registry.index g !! p = Some k → k = owner.
Proof.
  unfold registry.Conflicts. destruct (registry.index g !! p) as [k|].
  - rewrite bool_decide_eq_false. split.
    + intros Hk k' [= <-]. by destruct (decide (k = owner)).
    + intros Hk Hne. by apply Hne, Hk.
  - naive_solver.
Qed.

(* the index after an accepted commit *)
Lemma index_after_update g owner data p :
  registry.commitConflict g owner data = false →
  registry.index (registry.UpdateService g owner data) !! p
  = match graph.Ports data !! p with
    | Some _ => Some owner
    | None =>
        match registry.index g !! p with
        | Some k => if decide (k = owner) then None else Some k
        | None => None
        end
    end.
Proof.
  intros Hno. unfold registry.UpdateService. rewrite Hno. simpl.
  unfold registry.claim, registry.release.
  destruct (graph.Ports data !! p) as [pd|] eqn:Hp.
  - apply lookup_union_Some_raw. left. by rewrite lookup_fmap, Hp.
  - rewrite lookup_union_r by (by rewrite lookup_fmap, Hp).
    destruct (registry.index g !! p) as [k|] eqn:Hk.
    + destruct (decide (k = owner)) as [->|Hne].
      * apply map_lookup_filter_None. right. intros k' Hk' Hkeep.
        apply Hkeep. simpl. split; congruence.
      * apply map_lookup_filter_Some. split; [done|]. simpl. by intros [? _].
    + apply map_lookup_filter_None. left. done.
Qed.

Lemma consistent_update g owner data :
  consistent g → consistent (registry.UpdateService g owner data).
Proof.
  intros Hg. destruct (registry.commitConflict g owner data) eqn:Hno.
  { unfold registry.UpdateService. by rewrite Hno. }
  intros p k. rewrite index_after_update by done.
  unfold holds, registry.UpdateService. rewrite Hno. simpl.
  destruct (graph.Ports data !! p) as [pd|] eqn:Hp.
  - split.
    + intros [= <-]. exists data. rewrite lookup_insert_eq, Hp. eauto.
    + intros (d & Hd & Hpd). destruct (decide (k = owner)) as [->|Hne]; [done|].
      rewrite lookup_insert_ne in Hd by done.
      assert (registry.index g !! p = Some k) as Hix by (apply Hg; exists d; eauto).
      assert (registry.Conflicts g owner p = false) as Hc
        by (apply (commitConflict_false g owner data); eauto).
      rewrite Conflicts_false in Hc. by apply Hc in Hix.
  - split.
    + destruct (registry.index g !! p) as [k'|] eqn:Hk'; [|done].
      destruct (decide (k' = owner)); [done|]. intros [= <-].
      apply Hg in Hk' as (d & Hd & Hpd). exists d. by rewrite lookup_insert_ne.
    + intros (d & Hd & Hpd). destruct (decide (k = owner)) as [->|Hne].
      * rewrite lookup_insert_eq in Hd. injection Hd as <-.
        rewrite Hp in Hpd. by destruct Hpd.
      * rewrite lookup_insert_ne in Hd by done.
        assert (registry.index g !! p = Some k) as -> by (apply Hg; exists d; eauto).
        by destruct (decide (k = owner)).
Qed.

Lemma consistent_remove g owner :
  consistent g → consistent (registry.RemoveService g owner).
Proof.
  intros Hg. unfold registry.RemoveService.
  destruct (registry.owners g !! owner) as [d0|] eqn:Hown; [|done].
  intros p k. unfold holds. simpl. rewrite map_lookup_filter_Some. simpl. split.
  - intros [Hix Hne]. apply Hg in Hix as (d & Hd & Hpd).
    exists d. by rewrite lookup_delete_ne.
  - intros (d & Hd & Hpd). apply lookup_delete_Some in Hd as [Hne Hd].
    split; [|done]. apply Hg. exists d. eauto.
Qed.

Lemma reachable_consistent g : reachable g → consistent g.
Proof.
  induction 1 as [|g owner data _ IH|g owner _ IH].
  - intros p k. unfold holds. simpl. rewrite !lookup_empty. naive_solver.
  - by apply consistent_update.
  - by apply consistent_remove.
Qed.

End registry_lemmas.

(** C2: in every registry reached from the empty one by commits and
    removals, no port is held by two different Services, and the ownership
    index lists exactly the ports of the stored data; and right after a
    commit of [data] by [owner] that passes the re-validation, every port of
    [data] is free for [owner] and conflicts for every other key. *)
Theorem registry_port_ownership g :
  registry_facts.reachable g →
  (∀ p k1 k2, registry_facts.holds g k1 p → registry_facts.holds g k2 p → k1 = k2)
  ∧ (∀ p k, registry.index g !! p = Some k ↔ registry_facts.holds g k p)
  ∧ (∀ owner data p,
       registry.commitConflict g owner data = false →
       is_Some (graph.Ports data !! p) →
       registry.Conflicts (registry.UpdateService g owner data) owner p = false
       ∧ ∀ k, k ≠ owner →
              registry.Conflicts (registry.UpdateService g owner data) k p = true).
Proof.
  intros Hg%registry_lemmas.reachable_consistent. split; [|split; [exact Hg|]].
  - intros p k1 k2 H1%Hg H2%Hg. congruence.
  - intros owner data p Hno [pd Hp].
    assert (Hix : registry.index (registry.UpdateService g owner data) !! p = Some owner)
      by (by rewrite registry_lemmas.index_after_update, Hp).
    split.
    + apply registry_lemmas.Conflicts_false. congruence.
    + intros k Hk. apply registry_lemmas.Conflicts_true. eauto.
Qed.

Lemma registry_port_ownership_witness :
  (∀ p k1 k2, registry_facts.holds demo4.taken k1 p →
              registry_facts.holds demo4.taken k2 p → k1 = k2)
  ∧ (∀ p k, registry.index demo4.taken !! p = Some k
            ↔ registry_facts.holds demo4.taken k p)
  ∧ (∀ owner data p,
       registry.commitConflict demo4.taken owner data = false →
       is_Some (graph.Ports data !! p) →
       registry.Conflicts (registry.UpdateService demo4.taken owner data) owner p = false
       ∧ ∀ k, k ≠ owner →
              registry.Conflicts (registry.UpdateService demo4.taken owner data) k p = true).
Proof.
  apply (registry_port_ownership demo4.taken).
  apply registry_facts.reachable_update, registry_facts.reachable_empty.
Defined.

(* spec example: after the commit of "other", 80/TCP is free for "other" and
   conflicts for "web"; a commit by "web" is then refused and changes nothing *)
Example registry_taken :
  registry.Conflicts demo4.taken (demo.key "other") demo.port80 = false
  ∧ registry.Conflicts demo4.taken (demo.key "web") demo.port80 = true
  ∧ registry.UpdateService demo4.taken (demo.key "web") demo4.webData = demo4.taken.
Proof. vm_compute. done. Qed.

(* after a removal, the ports the owner held conflict for nobody *)
Lemma registry_remove_releases g owner k p :
  registry_facts.reachable g →
  registry_facts.holds g owner p →
  registry.Conflicts (registry.RemoveService g owner) k p = false.
Proof.
  intros Hg%registry_lemmas.reachable_consistent [d [Hd Hp]].
  apply registry_lemmas.Conflicts_false. intros k'.
  unfold registry.RemoveService. rewrite Hd. simpl.
  rewrite map_lookup_filter_Some. simpl. intros [Hix Hne].
  exfalso. apply Hne.
  assert (registry.index g !! p = Some owner) by (apply Hg; exists d; eauto).
  congruence.
Qed.

(* spec examples for shouldManage *)
Example shouldManage_ClusterIP :
  shouldManage demo4.settingsCluster demo4.inner = false.
Proof. reflexivity. Qed.

Example shouldManage_unset_class :
  shouldManage demo4.settingsCluster demo.web = true.
Proof. reflexivity. Qed.

Example shouldManage_other_class :
  shouldManage
    {| Client := Client demo4.settingsCluster;
       config := {| internal.LoadBalancerClass := "custom";
                    internal.AddressSource' := internal.AddressSourcePod;
                    internal.NodeAddressType := "InternalIP";
                    internal.UseIPv6Endpoints := false;
                    internal.IngressStatus := [] |} |}
    demo.web = false.
Proof. reflexivity. Qed.

(** ** The controller on the modelled registry *)

(* a commit that follows clean probes passes the re-validation: the data is
   stored and its ports are claimed for the Service *)
Lemma Reconcile_commit_accepted {L : GoLib} (r : ServiceReconciler) req svc res
    (w w' : World registry.State) :
  client.GetService (Client r) req = Ok svc →
  shouldManage r svc = true →
  (∀ p, p ∈ getServicePorts svc → registry.Conflicts (w_graph w) req p = false) →
  Reconcile r req w = (Ok res, w') →
  ∃ data,
    registry.owners (w_graph w') !! req = Some data
    ∧ (∀ p, p ∈ getServicePorts svc ↔ is_Some (graph.Ports data !! p))
    ∧ (∀ p, p ∈ getServicePorts svc → registry.index (w_graph w') !! p = Some req)
    ∧ registry.version (w_graph w') = registry.version (w_graph w) + 1.
Proof.
  intros Hget Hmanage Hfree.
  rewrite (Reconcile_managed_free (SG := registry_ServiceGraph) r req svc w
             Hget Hmanage Hfree).
  destruct (buildServiceData r svc (getServicePorts svc) (probed req svc w))
    as [[data|e] w1] eqn:Hbuild; [|done].
  intros [= _ <-]. simpl.
  destruct (buildServiceData_Ok r svc _ _ _ _ Hbuild) as [Hdom _].
  assert (Hno : registry.commitConflict (w_graph w) req data = false).
  { unfold registry.commitConflict. apply bool_decide_eq_false.
    intros (p & Hp%elem_of_dom%Hdom%Hfree & Hc). congruence. }
  exists data. split; [|split; [done|split]].
  - unfold registry.UpdateService. rewrite Hno. simpl. apply lookup_insert_eq.
  - intros p [pd Hp]%Hdom.
    by rewrite registry_lemmas.index_after_update, Hp.
  - unfold registry.UpdateService. by rewrite Hno.
Qed.

(* the ports of "multi" are claimed although no endpoint is ready *)
Example Reconcile_multi_claimed :
  registry.index (w_graph (Reconcile (L := golib) demo4.settingsCluster
                             (demo.key "multi") (demo.start registry.empty)).2)
    !! {| graph.Port := 53; graph.Protocol := "UDP" |} = Some (demo.key "multi")
  ∧ registry.index (w_graph (Reconcile (L := golib) demo4.settingsCluster
                               (demo.key "multi") (demo.start registry.empty)).2)
      !! {| graph.Port := 9; graph.Protocol := "SCTP" |} = None.
Proof. vm_compute. done. Qed.

(** * Further properties of the controller *)

(** ** The paths of Reconcile *)

Section ReconcilePaths.
Context {G : Type} {SG : ServiceGraph G} {L : GoLib}.
Variable r : ServiceReconciler.

Lemma Reconcile_get_failure_run req err (w : World G) :
  client.GetService (Client r) req = Err err →
  Reconcile r req w
  = if IsNotFound err
    then (Ok ctrl.empty,
          {| w_graph := RemoveService (w_graph w) req;
             w_calls := w_calls w ++ [CallGetService req; CallRemoveService req];
             w_ranges := w_ranges w |})
    else (Err err, logged w [CallGetService req]).
Proof.
  intros Hget. unfold Reconcile, Get_Service, graph_RemoveService, IgnoreNotFound.
  unfold_M. simpl. rewrite Hget.
  destruct (IsNotFound err); simpl; [|done].
  by rewrite <- app_assoc.
Qed.

Lemma Reconcile_unmanaged_run req svc (w : World G) :
  client.GetService (Client r) req = Ok svc →
  shouldManage r svc = false →
  Reconcile r req w = (Ok ctrl.empty, logged w [CallGetService req]).
Proof.
  intros Hget Hmanage. unfold Reconcile, Get_Service. unfold_M. simpl.
  by rewrite Hget, Hmanage.
Qed.

Lemma Reconcile_conflict_run req svc pre p post (w : World G) :
  client.GetService (Client r) req = Ok svc →
  shouldManage r svc = true →
  getServicePorts svc = pre ++ p :: post →
  (∀ q, q ∈ pre → Conflicts (w_graph w) req q = false) →
  Conflicts (w_graph w) req p = true →
  Reconcile r req w
  = (Ok {| ctrl.RequeueAfter := 1 * time_Minute |},
     logged w (CallGetService req :: (CallConflicts req <$> pre ++ [p])
               ++ [conflictEvent svc p])).
Proof.
  intros Hget Hmanage Hports Hfree Hp.
  unfold Reconcile, Get_Service. unfold_M. simpl. rewrite Hget, Hmanage. simpl.
  rewrite Hports.
  change {| w_graph := w_graph w; w_calls := w_calls w ++ [CallGetService req];
            w_ranges := w_ranges w |} with (logged w [CallGetService req]).
  rewrite probe_some by done. by rewrite logged_logged.
Qed.

(** X1: when the Service cannot be fetched, Reconcile does one of two things.
    If the error is "not found" it calls RemoveService for the key and
    returns no error; for any other error it returns that error and leaves
    the registry alone.  Nothing else is called. *)
Theorem Reconcile_get_failure req err (w : World G) :
  client.GetService (Client r) req = Err err →
  (IsNotFound err = true →
   Reconcile r req w
   = (Ok ctrl.empty,
      {| w_graph := RemoveService (w_graph w) req;
         w_calls := w_calls w ++ [CallGetService req; CallRemoveService req];
         w_ranges := w_ranges w |}))
  ∧ (IsNotFound err = false →
     Reconcile r req w = (Err err, logged w [CallGetService req])).
Proof.
  intros Hget. rewrite (Reconcile_get_failure_run req err w Hget).
  split; intros ->; done.
Qed.

(** X2: a Service that is not managed (not of type LoadBalancer, or of another
    load-balancer class) is left alone: Reconcile returns no error and no
    requeue, the registry is unchanged (data stored earlier for the key is
    not removed), and no status is written. *)
Theorem Reconcile_unmanaged req svc (w : World G) :
  client.GetService (Client r) req = Ok svc →
  shouldManage r svc = false →
  Reconcile r req w = (Ok ctrl.empty, logged w [CallGetService req])
  ∧ w_graph (Reconcile r req w).2 = w_graph w.
Proof.
  intros Hget Hmanage. by rewrite (Reconcile_unmanaged_run req svc w Hget Hmanage).
Qed.

Lemma resolution_not_mutation (cs : list Call) :
  Forall (λ c, isResolution c = true) cs → Forall (λ c, isMutation c = false) cs.
Proof. intros H. eapply Forall_impl; [exact H|]. by intros []. Qed.

Lemma probes_not_mutation req (ports : list graph.ServicePort) :
  Forall (λ c, isMutation c = false) (CallGetService req :: (CallConflicts req <$> ports)).
Proof.
  constructor; [done|]. apply Forall_forall. by intros c (p & -> & _)%list_elem_of_fmap.
Qed.

(** X3: whatever the cluster answers, Reconcile leaves the registry in one of
    three ways: untouched, with no call of UpdateService or RemoveService;
    after the single call RemoveService(req); or after the single call
    UpdateService(req, data), which is then followed by the status write and
    by nothing else.  It never names another key than the one it was asked
    to reconcile. *)
Theorem Reconcile_registry_effect req (w : World G) :
  registryUntouched w (Reconcile r req w).2
  ∨ registryRemoved req w (Reconcile r req w).2
  ∨ registryCommitted req w (Reconcile r req w).2.
Proof.
  destruct (client.GetService (Client r) req) as [svc|err] eqn:Hget.
  2: { rewrite (Reconcile_get_failure_run req err w Hget).
       destruct (IsNotFound err).
       - right. left. done.
       - left. split; [done|]. exists [CallGetService req]. split; [done|].
         by repeat constructor. }
  destruct (shouldManage r svc) eqn:Hmanage.
  2: { rewrite (Reconcile_unmanaged_run req svc w Hget Hmanage). left.
       split; [done|]. exists [CallGetService req]. split; [done|].
       by repeat constructor. }
  destruct (decide (Exists (λ p, Conflicts (w_graph w) req p = true)
                      (getServicePorts svc))) as [Hex|Hfree].
  - apply Exists_exists in Hex as (p & Hin & Hp).
    destruct (first_conflict _ _ _ _ Hin Hp) as (pre & p' & post & Hports & Hpre & Hp').
    rewrite (Reconcile_conflict_run req svc pre p' post w Hget Hmanage Hports Hpre Hp').
    left. split; [done|]. eexists. split; [reflexivity|].
    constructor; [done|]. apply Forall_app. split.
    + apply Forall_forall. by intros c (q & -> & _)%list_elem_of_fmap.
    + by repeat constructor.
  - assert (Hfree' : ∀ p, p ∈ getServicePorts svc → Conflicts (w_graph w) req p = false).
    { intros p Hin. destruct (Conflicts (w_graph w) req p) eqn:Hp; [|done].
      exfalso. apply Hfree, Exists_exists. eauto. }
    rewrite (Reconcile_managed_free r req svc w Hget Hmanage Hfree').
    pose proof (buildServiceData_readsOnly r svc (getServicePorts svc) (probed req svc w))
      as [Hg (cs & Hcs & Hres)].
    destruct (buildServiceData r svc (getServicePorts svc) (probed req svc w))
      as [[data|e'] w1]; simpl in *.
    + right. right.
      exists data, (CallGetService req :: (CallConflicts req <$> getServicePorts svc) ++ cs),
        (statusOf r svc).
      split; [done|]. split.
      * rewrite Hcs. simpl. by rewrite <- !app_assoc.
      * rewrite app_comm_cons. apply Forall_app. split;
          [apply probes_not_mutation|by apply resolution_not_mutation].
    + left. split; [done|].
      exists (CallGetService req :: (CallConflicts req <$> getServicePorts svc) ++ cs).
      split; [rewrite Hcs; by rewrite <- app_assoc|].
      rewrite app_comm_cons. apply Forall_app. split;
        [apply probes_not_mutation|by apply resolution_not_mutation].
Qed.

(** X4: all or nothing across ports.  When building the data of a managed,
    conflict-free Service fails (a malformed setting, a failing List, a
    malformed pod address, for any one of its ports), Reconcile returns that
    error, the registry is unchanged, and after the conflict probes only
    cluster reads were made: no UpdateService, no status write, no event. *)
Theorem Reconcile_build_failure req svc e (w : World G) :
  client.GetService (Client r) req = Ok svc →
  shouldManage r svc = true →
  (∀ p, p ∈ getServicePorts svc → Conflicts (w_graph w) req p = false) →
  (buildServiceData r svc (getServicePorts svc) (probed req svc w)).1 = Err e →
  (Reconcile r req w).1 = Err e
  ∧ w_graph (Reconcile r req w).2 = w_graph w
  ∧ ∃ cs, w_calls (Reconcile r req w).2
          = w_calls w ++ CallGetService req
                         :: (CallConflicts req <$> getServicePorts svc) ++ cs
          ∧ Forall (λ c, isResolution c = true) cs.
Proof.
  intros Hget Hmanage Hfree Hbuild.
  rewrite (Reconcile_managed_free r req svc w Hget Hmanage Hfree).
  pose proof (buildServiceData_readsOnly r svc (getServicePorts svc) (probed req svc w))
    as [Hg (cs & Hcs & Hres)].
  destruct (buildServiceData r svc (getServicePorts svc) (probed req svc w))
    as [[data|e'] w1]; simpl in *; [done|].
  injection Hbuild as ->. split; [done|]. split; [done|].
  exists cs. split; [|done]. rewrite Hcs. by rewrite <- app_assoc.
Qed.


End ReconcilePaths.

Lemma Reconcile_get_failure_witness :
  ((IsNotFound (ErrNotFound "gone") = true →
    Reconcile (L := golib) demo.nodeCluster (demo.key "gone") (demo.start demo4.taken)
    = (Ok ctrl.empty,
       {| w_graph := RemoveService (w_graph (demo.start demo4.taken)) (demo.key "gone");
          w_calls := w_calls (demo.start demo4.taken)
                     ++ [CallGetService (demo.key "gone");
                         CallRemoveService (demo.key "gone")];
          w_ranges := w_ranges (demo.start demo4.taken) |}))
   ∧ (IsNotFound (ErrNotFound "gone") = false →
      Reconcile (L := golib) demo.nodeCluster (demo.key "gone") (demo.start demo4.taken)
      = (Err (ErrNotFound "gone"),
         logged (demo.start demo4.taken) [CallGetService (demo.key "gone")])))
  ∧ ((IsNotFound (ErrAPI "context deadline exceeded") = true →
      Reconcile (L := golib) demo5.brokenCluster (demo.key "web") (demo.start demo4.taken)
      = (Ok ctrl.empty,
         {| w_graph := RemoveService (w_graph (demo.start demo4.taken)) (demo.key "web");
            w_calls := w_calls (demo.start demo4.taken)
                       ++ [CallGetService (demo.key "web");
                           CallRemoveService (demo.key "web")];
            w_ranges := w_ranges (demo.start demo4.taken) |}))
     ∧ (IsNotFound (ErrAPI "context deadline exceeded") = false →
        Reconcile (L := golib) demo5.brokenCluster (demo.key "web") (demo.start demo4.taken)
        = (Err (ErrAPI "context deadline exceeded"),
           logged (demo.start demo4.taken) [CallGetService (demo.key "web")]))).
Proof.
  split.
  - apply (Reconcile_get_failure (L := golib) demo.nodeCluster (demo.key "gone")
             (ErrNotFound "gone") (demo.start demo4.taken)).
    reflexivity.
  - apply (Reconcile_get_failure (L := golib) demo5.brokenCluster (demo.key "web")
             (ErrAPI "context deadline exceeded") (demo.start demo4.taken)).
    reflexivity.
Defined.

Lemma Reconcile_unmanaged_witness :
  Reconcile (L := golib) demo4.settingsCluster (demo.key "inner") (demo.start demo4.taken)
  = (Ok ctrl.empty, logged (demo.start demo4.taken) [CallGetService (demo.key "inner")])
  ∧ w_graph (Reconcile (L := golib) demo4.settingsCluster (demo.key "inner")
               (demo.start demo4.taken)).2 = w_graph (demo.start demo4.taken).
Proof.
  apply (Reconcile_unmanaged (L := golib) demo4.settingsCluster (demo.key "inner")
           demo4.inner (demo.start demo4.taken)).
  - reflexivity.
  - reflexivity.
Defined.

(* the first port of "pair" resolves, the second one does not: both are
   listed, nothing is committed *)
Example Reconcile_pair :
  Reconcile (L := golib) demo5.pairCluster (demo.key "pair") (demo.start registry.empty)
  = (Err (ErrParseAddr "10.0.0.2.3"),
     {| w_graph := registry.empty;
        w_calls := [CallGetService (demo.key "pair");
                    CallConflicts (demo.key "pair") {| graph.Port := 80; graph.Protocol := "TCP" |};
                    CallConflicts (demo.key "pair") {| graph.Port := 81; graph.Protocol := "TCP" |};
                    CallListEndpointSlices "default" "pair";
                    CallListEndpointSlices "default" "pair"];
        w_ranges := 1 |}).
Proof. vm_compute. reflexivity. Qed.

Lemma Reconcile_build_failure_witness :
  (Reconcile (L := golib) demo5.pairCluster (demo.key "pair")
     (demo.start registry.empty)).1 = Err (ErrParseAddr "10.0.0.2.3")
  ∧ w_graph (Reconcile (L := golib) demo5.pairCluster (demo.key "pair")
               (demo.start registry.empty)).2 = w_graph (demo.start registry.empty)
  ∧ ∃ cs, w_calls (Reconcile (L := golib) demo5.pairCluster (demo.key "pair")
                     (demo.start registry.empty)).2
          = w_calls (demo.start registry.empty)
            ++ CallGetService (demo.key "pair")
               :: (CallConflicts (demo.key "pair") <$> getServicePorts demo5.pair) ++ cs
          ∧ Forall (λ c, isResolution c = true) cs.
Proof.
  apply (Reconcile_build_failure (L := golib) demo5.pairCluster (demo.key "pair")
           demo5.pair (ErrParseAddr "10.0.0.2.3") (demo.start registry.empty)).
  - reflexivity.
  - reflexivity.
  - intros p _. reflexivity.
  - vm_compute. reflexivity.
Defined.

(** ** The accepted ports *)

Lemma getServicePorts_loop_filter ps acc :
  getServicePorts_loop ps acc = acc ++ (portOf <$> filter accepted ps).
Proof.
  revert acc. induction ps as [|sp ps IH]; intros acc; simpl.
  - by rewrite app_nil_r.
  - unfold corev1.ProtocolTCP, corev1.ProtocolUDP, graph.TCP, graph.UDP.
    destruct (String.eqb_spec (corev1.Protocol sp) "TCP") as [Ht|Ht];
      [|destruct (String.eqb_spec (corev1.Protocol sp) "UDP") as [Hu|Hu]];
      rewrite IH.
    + rewrite filter_cons_True by (by left). rewrite <- app_assoc. simpl.
      unfold portOf at 2. by rewrite Ht.
    + rewrite filter_cons_True by (by right). rewrite <- app_assoc. simpl.
      unfold portOf at 2. by rewrite Hu.
    + rewrite filter_cons_False; [done|]. by intros [?|?].
Qed.

(** X5: getServicePorts returns the TCP and UDP ports of the Service in the
    order in which the Service declares them, one entry per declared port
    (duplicates are kept), and drops every port of another protocol. *)
Theorem getServicePorts_filter svc :
  getServicePorts svc = portOf <$> filter accepted (corev1.Spec_Ports svc).
Proof. unfold getServicePorts. by rewrite getServicePorts_loop_filter. Qed.

Lemma findServicePort_first sps port sp :
  sp ∈ sps → corev1.Port sp = graph.Port port →
  corev1.Protocol sp = graph.Protocol port →
  ∃ sp', findServicePort sps port = Some sp'
         ∧ sp' ∈ sps
         ∧ corev1.Port sp' = graph.Port port
         ∧ corev1.Protocol sp' = graph.Protocol port.
Proof.
  induction sps as [|sp0 sps IH]; [by intros ?%elem_of_nil|].
  intros Hin Hport Hproto. simpl.
  destruct (Z.eqb_spec (corev1.Port sp0) (graph.Port port)) as [Hp0|Hp0];
    [destruct (String.eqb_spec (corev1.Protocol sp0) (graph.Protocol port)) as [Hq0|Hq0]|];
    simpl.
  - exists sp0. split; [done|]. split; [left|done].
  - apply elem_of_cons in Hin as [->|Hin]; [congruence|].
    destruct (IH Hin Hport Hproto) as (sp' & -> & Hin' & ?). exists sp'.
    split; [done|]. split; [by right|done].
  - apply elem_of_cons in Hin as [->|Hin]; [congruence|].
    destruct (IH Hin Hport Hproto) as (sp' & -> & Hin' & ?). exists sp'.
    split; [done|]. split; [by right|done].
Qed.

Section PortFound.
Context {G : Type} {L : GoLib}.
Variable r : ServiceReconciler.


End PortFound.


(** ** Where the returned endpoints come from *)


Section Provenance.
Context {G : Type} {L : GoLib}.
Variable r : ServiceReconciler.

Lemma pod_endpointWrites_elem svcPort p ep ws k b :
  internal.AddressSource' (config r) ≠ internal.AddressSourceNode →
  endpointWrites r svcPort p ep = Ok ws →
  (k, b) ∈ ws →
  ∃ addr ip, addr ∈ discoveryv1.Addresses ep
             ∧ ParseAddr addr = Some ip
             ∧ k = (ip, uint16 p)
             ∧ b = endpointReady ep.
Proof.
  intros Hpod. unfold endpointWrites. destruct (decide _) as [?|_]; [done|].
  intros Hws Hin. rewrite (concatWrites_Ok_elem _ _ _ _ Hws) in Hin.
  destruct Hin as (addr & wsa & Haddr & Hwsa & Hin). unfold addressWrite in Hwsa.
  destruct (ParseAddr addr) as [ip|] eqn:Hip; [|done]. injection Hwsa as <-.
  apply list_elem_of_singleton in Hin as [= -> ->]. by exists addr, ip.
Qed.

Lemma pod_serviceWrites_elem svcPort items ws k b :
  internal.AddressSource' (config r) ≠ internal.AddressSourceNode →
  concatWrites (sliceWrites r svcPort) items = Ok ws →
  (k, b) ∈ ws →
  ∃ es p ep addr ip,
    es ∈ items ∧ slicePort r svcPort es = Some p
    ∧ ep ∈ discoveryv1.Endpoints es
    ∧ addr ∈ discoveryv1.Addresses ep
    ∧ ParseAddr addr = Some ip
    ∧ k = (ip, uint16 p)
    ∧ b = endpointReady ep.
Proof.
  intros Hpod Hws Hin. rewrite (concatWrites_Ok_elem _ _ _ _ Hws) in Hin.
  destruct Hin as (es & wses & Hes & Hwses & Hin). unfold sliceWrites in Hwses.
  destruct (slicePort r svcPort es) as [p|] eqn:Hp;
    [|injection Hwses as <-; by apply elem_of_nil in Hin].
  rewrite (concatWrites_Ok_elem _ _ _ _ Hwses) in Hin.
  destruct Hin as (ep & wsep & Hep & Hwsep & Hin).
  destruct (pod_endpointWrites_elem svcPort p ep wsep k b Hpod Hwsep Hin)
    as (addr & ip & ? & ? & ? & ?).
  exists es, p, ep, addr, ip. done.
Qed.


(* the entries of the returned list are among the writes *)
Lemma buildEndpoints_written svc port (w : World G) l e :
  (buildEndpoints r svc port w).1 = Ok l → e ∈ l →
  ∃ ws, serviceWrites r svc port = Ok ws
        ∧ (graph.AddrPort e, true) ∈ ws
        ∧ graph.Endpoint_Protocol e = graph.Protocol port.
Proof.
  intros Hl He. destruct (buildEndpoints_writes r svc port w) as [n Hn].
  rewrite Hl in Hn.
  destruct (serviceWrites r svc port) as [ws|] eqn:Hws; [|done].
  exists ws. split; [done|].
  apply (buildEndpoints_elem r svc port w l ws e Hl Hws) in He as [He Hp].
  split; [|done].
  apply replay_lookup_Some in He as [He|He]; [done|by rewrite lookup_empty in He].
Qed.

(** X7: in Pod mode every returned endpoint is the parsed address string of
    an endpoint that counts as ready (its Ready condition is true or absent),
    in a slice that was not skipped, paired with the port resolved for that
    slice, converted to uint16, and with the protocol of the port asked
    for. *)
Theorem pod_mode_endpoints svc port (w : World G) svcPort items l e :
  internal.AddressSource' (config r) ≠ internal.AddressSourceNode →
  findServicePort (corev1.Spec_Ports svc) port = Some svcPort →
  client.ListEndpointSlices (Client r) (corev1.Namespace svc) (corev1.Name svc)
    = Ok items →
  (buildEndpoints r svc port w).1 = Ok l →
  e ∈ l →
  ∃ es p ep addr,
    es ∈ items ∧ slicePort r svcPort es = Some p
    ∧ ep ∈ discoveryv1.Endpoints es
    ∧ addr ∈ discoveryv1.Addresses ep
    ∧ endpointReady ep = true
    ∧ ParseAddr addr = Some (graph.AddrPort e).1
    ∧ (graph.AddrPort e).2 = uint16 p
    ∧ graph.Endpoint_Protocol e = graph.Protocol port.
Proof.
  intros Hpod Hsp Hlist Hl He.
  destruct (buildEndpoints_written svc port w l e Hl He) as (ws & Hws & Hin & Hproto).
  unfold serviceWrites in Hws. rewrite Hsp, Hlist in Hws.
  destruct (pod_serviceWrites_elem svcPort items ws _ _ Hpod Hws Hin)
    as (es & p & ep & addr & ip & Hes & Hp & Hep & Haddr & Hip & Hk & Hb).
  exists es, p, ep, addr. rewrite Hk. simpl. done.
Qed.


(** X9: in Node mode every returned address is of the configured family:
    IPv6 when UseIPv6Endpoints is set, IPv4 otherwise. *)
Theorem node_mode_family svc port (w : World G) l e :
  internal.AddressSource' (config r) = internal.AddressSourceNode →
  (buildEndpoints r svc port w).1 = Ok l →
  e ∈ l →
  netip.Is6 (graph.AddrPort e).1 = internal.UseIPv6Endpoints (config r)
  ∧ netip.Is4 (graph.AddrPort e).1 = negb (internal.UseIPv6Endpoints (config r)).
Proof.
  intros Hnode Hl He.
  destruct (buildEndpoints_written svc port w l e Hl He) as (ws & Hws & Hin & _).
  unfold serviceWrites in Hws.
  destruct (findServicePort _ _) as [svcPort|]; [|done].
  destruct (client.ListEndpointSlices _ _ _) as [items|]; [|done].
  apply (node_serviceWrites_elem r w svcPort items ws _ _ Hnode Hws) in Hin
    as (_ & _ & es & ep & n & _ & _ & _ & _ & Hip & _).
  rewrite getNodeAddress_run in Hip. simpl in Hip. unfold nodeAddressOf in Hip.
  destruct (client.GetNode (Client r) n) as [node|]; [|done].
  apply (getNodeAddress_loop_spec r) in Hip as (i & addr & _ & (_ & _ & Hfam) & _).
  split; [done|]. rewrite <- Hfam. by destruct (graph.AddrPort e).1.
Qed.

End Provenance.

(* a slice port of 70000 comes out as 4464 *)
Example wideCluster_endpoints :
  (buildEndpoints (L := golib) demo5.wideCluster demo.web demo.port80
     (demo.start registry.empty)).1
  = Ok [ {| graph.AddrPort := (netip.Addr4 167772161, 4464);
            graph.Endpoint_Protocol := "TCP" |} ].
Proof. vm_compute. reflexivity. Qed.

Lemma pod_mode_endpoints_witness :
  ∃ es p ep addr,
    es ∈ [demo.slice4 70000 [demo.endpoint "10.0.0.1" (Some true) None]]
    ∧ slicePort demo5.wideCluster (demo.tcpPort "" 80 8080 30080) es = Some p
    ∧ ep ∈ discoveryv1.Endpoints es
    ∧ addr ∈ discoveryv1.Addresses ep
    ∧ endpointReady ep = true
    ∧ goref.parseAddr addr = Some (netip.Addr4 167772161)
    ∧ 4464 = uint16 p
    ∧ "TCP" = graph.Protocol demo.port80.
Proof.
  apply (pod_mode_endpoints (L := golib) demo5.wideCluster demo.web demo.port80
           (demo.start registry.empty) (demo.tcpPort "" 80 8080 30080)
           [demo.slice4 70000 [demo.endpoint "10.0.0.1" (Some true) None]]
           [ {| graph.AddrPort := (netip.Addr4 167772161, 4464);
                graph.Endpoint_Protocol := "TCP" |} ]
           {| graph.AddrPort := (netip.Addr4 167772161, 4464);
              graph.Endpoint_Protocol := "TCP" |}).
  - discriminate.
  - reflexivity.
  - reflexivity.
  - vm_compute. reflexivity.
  - left.
Defined.


Lemma node_mode_family_witness :
  netip.Is6 (graph.AddrPort demo2.ep_n1).1
  = internal.UseIPv6Endpoints (config demo2.degradedCluster)
  ∧ netip.Is4 (graph.AddrPort demo2.ep_n1).1
    = negb (internal.UseIPv6Endpoints (config demo2.degradedCluster)).
Proof.
  apply (node_mode_family (L := golib) demo2.degradedCluster demo.web demo.port80
           (demo.start registry.empty) [demo2.ep_n1] demo2.ep_n1).
  - reflexivity.
  - vm_compute. reflexivity.
  - left.
Defined.

(** ** The calls the resolver makes *)

Lemma forRange_logged {G S A} (body : S → A → M G S) (f : A → list Call) l :
  (∀ s x w, ∃ s', body s x w = (Ok s', logged w (f x))) →
  ∀ s w, ∃ s', forRange body s l w = (Ok s', logged w (x ← l; f x)).
Proof.
  intros Hbody. induction l as [|x l IH]; intros s w.
  - exists s. simpl. unfold_M. by rewrite logged_nil.
  - rewrite forRange_cons. destruct (Hbody s x w) as [s1 ->].
    destruct (IH s1 (logged w (f x))) as [s' ->]. exists s'.
    by rewrite logged_logged.
Qed.

Lemma forRange_silent {G S A} (body : S → A → M G S) l :
  (∀ s x w, (body s x w).2 = w) → ∀ s w, (forRange body s l w).2 = w.
Proof.
  intros Hbody. induction l as [|x l IH]; intros s w; [done|].
  rewrite forRange_cons. specialize (Hbody s x w).
  destruct (body s x w) as [[s1|e] w1]; simpl in Hbody; subst; [apply IH|done].
Qed.

Section ResolverCalls.
Context {G : Type} {L : GoLib}.
Variable r : ServiceReconciler.

Lemma node_endpointBody_run svcPort p ips ep (w : World G) :
  internal.AddressSource' (config r) = internal.AddressSourceNode →
  ∃ ips', endpointBody r svcPort p ips ep w
          = (Ok ips', logged w (CallGetNode <$> fetchOf r svcPort ep)).
Proof.
  intros Hnode. unfold endpointBody, fetchOf.
  destruct (decide _) as [_|?]; [|done].
  destruct (discoveryv1.NodeName ep) as [n|];
    [|exists ips; unfold_M; by rewrite logged_nil].
  destruct (negb _); [|exists ips; unfold_M; by rewrite logged_nil].
  unfold mbind, M_bind, attempt. rewrite getNodeAddress_run.
  destruct (nodeAddressOf r n); eexists; reflexivity.
Qed.

Lemma pod_endpointBody_silent svcPort p ips ep (w : World G) :
  internal.AddressSource' (config r) ≠ internal.AddressSourceNode →
  (endpointBody r svcPort p ips ep w).2 = w.
Proof.
  intros Hpod. unfold endpointBody. destruct (decide _) as [?|_]; [done|].
  apply forRange_silent. intros s addr w'. unfold addressBody.
  by destruct (ParseAddr addr).
Qed.

Lemma pod_nodeFetches svcPort items :
  internal.AddressSource' (config r) ≠ internal.AddressSourceNode →
  nodeFetches r svcPort items = [].
Proof.
  intros Hpod. unfold nodeFetches.
  induction items as [|es items IH]; [done|]. rewrite bind_cons, IH, app_nil_r.
  destruct (slicePort r svcPort es); [|done].
  induction (discoveryv1.Endpoints es) as [|ep eps IHe]; [done|].
  rewrite bind_cons, IHe, app_nil_r. unfold fetchOf.
  by destruct (decide _).
Qed.

Lemma zero_nodeFetches svcPort items :
  corev1.NodePort svcPort = 0 → nodeFetches r svcPort items = [].
Proof.
  intros Hzero. unfold nodeFetches.
  induction items as [|es items IH]; [done|]. rewrite bind_cons, IH, app_nil_r.
  destruct (slicePort r svcPort es); [|done].
  induction (discoveryv1.Endpoints es) as [|ep eps IHe]; [done|].
  rewrite bind_cons, IHe, app_nil_r. unfold fetchOf. rewrite Hzero.
  destruct (decide _); [|done]. by destruct (discoveryv1.NodeName ep).
Qed.

(* the world after the loop over the listed slices *)
Lemma sliceLoop_world svcPort ips items (w : World G) :
  (forRange (sliceBody r svcPort) ips items w).2
  = logged w (CallGetNode <$> nodeFetches r svcPort items).
Proof.
  destruct (decide (internal.AddressSource' (config r) = internal.AddressSourceNode))
    as [Hnode|Hpod].
  - assert (Hep : ∀ p s ep (w' : World G),
               ∃ s', endpointBody r svcPort p s ep w'
                     = (Ok s', logged w' (CallGetNode <$> fetchOf r svcPort ep)))
      by (intros; by apply node_endpointBody_run).
    assert (Hes : ∀ s es (w' : World G),
               ∃ s', sliceBody r svcPort s es w'
                     = (Ok s', logged w'
                          (CallGetNode <$>
                             match slicePort r svcPort es with
                             | Some _ =>
                                 ep ← discoveryv1.Endpoints es; fetchOf r svcPort ep
                             | None => []
                             end))).
    { intros s es w'. unfold sliceBody.
      destruct (slicePort r svcPort es) as [p|];
        [|exists s; unfold_M; by rewrite logged_nil].
      destruct (forRange_logged _ _ (discoveryv1.Endpoints es) (Hep p) s w')
        as [s' ->].
      exists s'. f_equal. f_equal.
      induction (discoveryv1.Endpoints es) as [|ep eps IH]; [done|].
      by rewrite !bind_cons, fmap_app, IH. }
    destruct (forRange_logged _ _ items Hes ips w) as [ips' ->].
    simpl. f_equal. unfold nodeFetches.
    induction items as [|es items' IH]; [done|].
    by rewrite !bind_cons, fmap_app, IH.
  - rewrite pod_nodeFetches by done. simpl. rewrite logged_nil.
    apply forRange_silent. intros s es w'. unfold sliceBody.
    destruct (slicePort r svcPort es); [|done].
    apply forRange_silent. intros. by apply pod_endpointBody_silent.
Qed.

(* the world after a call of buildEndpoints for a port that is found:
   one List, then the node lookups *)
Lemma buildEndpoints_calls_run svc port svcPort (w : World G) :
  findServicePort (corev1.Spec_Ports svc) port = Some svcPort →
  w_graph (buildEndpoints r svc port w).2 = w_graph w
  ∧ w_calls (buildEndpoints r svc port w).2
    = w_calls w
      ++ CallListEndpointSlices (corev1.Namespace svc) (corev1.Name svc)
         :: (CallGetNode <$>
               match client.ListEndpointSlices (Client r)
                       (corev1.Namespace svc) (corev1.Name svc) with
               | Ok items => nodeFetches r svcPort items
               | Err _ => []
               end).
Proof.
  intros Hsp. rewrite buildEndpoints_run. unfold collectEndpoints, List_EndpointSlices.
  rewrite Hsp. unfold_M. simpl.
  destruct (client.ListEndpointSlices _ _ _) as [items|e]; [|done].
  change {| w_graph := w_graph w;
            w_calls := w_calls w ++ [CallListEndpointSlices (corev1.Namespace svc)
                                       (corev1.Name svc)];
            w_ranges := w_ranges w |}
    with (logged w [CallListEndpointSlices (corev1.Namespace svc) (corev1.Name svc)]).
  pose proof (sliceLoop_world svcPort ∅ items
                (logged w [CallListEndpointSlices (corev1.Namespace svc)
                             (corev1.Name svc)])) as Hw.
  destruct (forRange (sliceBody r svcPort) ∅ items _) as [[ips|e] w1];
    simpl in Hw; subst w1; simpl; by rewrite <- app_assoc.
Qed.

(** X10: a call of buildEndpoints for a port of the Service makes one List
    call and then, in Node mode, one Get for the node of every endpoint (of a
    slice that is not skipped) that names a node, in order and once per
    endpoint, also when several endpoints name the same node; in Pod mode, or
    when the node-port is zero, it fetches no Node.  It never touches the
    registry. *)
Theorem buildEndpoints_calls svc port svcPort items (w : World G) :
  findServicePort (corev1.Spec_Ports svc) port = Some svcPort →
  client.ListEndpointSlices (Client r) (corev1.Namespace svc) (corev1.Name svc)
    = Ok items →
  w_graph (buildEndpoints r svc port w).2 = w_graph w
  ∧ w_calls (buildEndpoints r svc port w).2
    = w_calls w
      ++ CallListEndpointSlices (corev1.Namespace svc) (corev1.Name svc)
         :: (CallGetNode <$> nodeFetches r svcPort items)
  ∧ (internal.AddressSource' (config r) ≠ internal.AddressSourceNode
     ∨ corev1.NodePort svcPort = 0 →
     nodeFetches r svcPort items = []).
Proof.
  intros Hsp Hlist.
  destruct (buildEndpoints_calls_run svc port svcPort w Hsp) as [Hg Hc].
  rewrite Hlist in Hc. split; [done|]. split; [done|].
  intros [Hpod|Hzero]; [by apply pod_nodeFetches|by apply zero_nodeFetches].
Qed.

End ResolverCalls.

(* three endpoints, three lookups, although only one node resolves *)
Example degradedCluster_calls :
  w_calls (buildEndpoints (L := golib) demo2.degradedCluster demo.web demo.port80
             (demo.start registry.empty)).2
  = [CallListEndpointSlices "default" "web";
     CallGetNode "n6"; CallGetNode "ghost"; CallGetNode "n1"].
Proof. vm_compute. reflexivity. Qed.

Lemma buildEndpoints_calls_witness :
  w_graph (buildEndpoints (L := golib) demo2.degradedCluster demo.web demo.port80
             (demo.start registry.empty)).2 = w_graph (demo.start registry.empty)
  ∧ w_calls (buildEndpoints (L := golib) demo2.degradedCluster demo.web demo.port80
               (demo.start registry.empty)).2
    = w_calls (demo.start registry.empty)
      ++ CallListEndpointSlices (corev1.Namespace demo.web) (corev1.Name demo.web)
         :: (CallGetNode <$> nodeFetches demo2.degradedCluster
                               (demo.tcpPort "" 80 8080 30080) demo2.nodeSlices)
  ∧ (internal.AddressSource' (config demo2.degradedCluster) ≠ internal.AddressSourceNode
     ∨ corev1.NodePort (demo.tcpPort "" 80 8080 30080) = 0 →
     nodeFetches demo2.degradedCluster (demo.tcpPort "" 80 8080 30080)
       demo2.nodeSlices = []).
Proof.
  apply (buildEndpoints_calls (L := golib) demo2.degradedCluster demo.web demo.port80
           (demo.tcpPort "" 80 8080 30080) demo2.nodeSlices (demo.start registry.empty)).
  - reflexivity.
  - reflexivity.
Defined.

(** ** How often the cluster is listed *)

Lemma lists_getNodes (names : list string) :
  filter (λ c, isList c = true) (CallGetNode <$> names) = [].
Proof.
  induction names as [|n names IH]; [done|].
  rewrite fmap_cons, filter_cons_False; done.
Qed.

Lemma lists_probes req (ports : list graph.ServicePort) :
  filter (λ c, isList c = true) (CallConflicts req <$> ports) = [].
Proof.
  induction ports as [|p ports IH]; [done|].
  rewrite fmap_cons, filter_cons_False; done.
Qed.

Lemma accepted_port_found svc p :
  p ∈ getServicePorts svc → is_Some (findServicePort (corev1.Spec_Ports svc) p).
Proof.
  intros (sp & Hsp & Hacc & ->)%getServicePorts_elem.
  destruct (findServicePort_first (corev1.Spec_Ports svc) (portOf sp) sp Hsp eq_refl eq_refl)
    as (sp' & -> & _). by eexists.
Qed.

Section ListCalls.
Context {G : Type} {SG : ServiceGraph G} {L : GoLib}.
Variable r : ServiceReconciler.

Lemma portBody_run svc upp idle ranges data port (w : World G) :
  portBody r svc upp idle ranges data port w
  = match buildEndpoints r svc port w with
    | (Ok endpoints, w') =>
        (Ok {| graph.Ports :=
                 <[port := {| graph.Endpoints := endpoints;
                              graph.UseProxyProtocol := upp;
                              graph.IdleTimeout := idle;
                              graph.AllowedIPRanges := ranges |}]>
                   (graph.Ports data) |}, w')
    | (Err e, w') => (Err e, w')
    end.
Proof.
  unfold portBody. unfold_M. by destruct (buildEndpoints r svc port w) as [[?|?] ?].
Qed.

(* the loop over the ports lists once for every port it gets to *)
Lemma portLoop_lists svc upp idle ranges ports data (w : World G) :
  (∀ p, p ∈ ports → is_Some (findServicePort (corev1.Spec_Ports svc) p)) →
  ∃ cs, w_calls (forRange (portBody r svc upp idle ranges) data ports w).2
        = w_calls w ++ cs
        ∧ (length (filter (λ c, isList c = true) cs) ≤ length ports)%nat
        ∧ (∀ d, (forRange (portBody r svc upp idle ranges) data ports w).1 = Ok d →
             length (filter (λ c, isList c = true) cs) = length ports).
Proof.
  revert data w. induction ports as [|p ports IH]; intros data w Hfound.
  - exists []. simpl. unfold_M. simpl. by rewrite app_nil_r.
  - rewrite forRange_cons, portBody_run.
    destruct (Hfound p) as [sp Hsp]; [by left|].
    destruct (buildEndpoints_calls_run r svc p sp w Hsp) as [_ Hc].
    set (names := match client.ListEndpointSlices _ _ _ with
                  | Ok items => nodeFetches r sp items | Err _ => [] end) in Hc.
    assert (Hone : length (filter (λ c, isList c = true)
                             (CallListEndpointSlices (corev1.Namespace svc)
                                (corev1.Name svc) :: (CallGetNode <$> names))) = 1%nat).
    { rewrite filter_cons_True by done. by rewrite lists_getNodes. }
    destruct (buildEndpoints r svc p w) as [[eps|e] w1]; simpl in Hc.
    + match goal with
      | |- context [forRange _ ?d ports w1] =>
          destruct (IH d w1) as (cs & Hcs & Hle & Heq);
            [by intros; apply Hfound; right|]
      end.
      eexists (_ :: (CallGetNode <$> names) ++ cs).
      rewrite Hcs, Hc. split; [by rewrite <- app_assoc|].
      rewrite app_comm_cons, filter_app, length_app, Hone. simpl. split; [lia|].
      intros d Hd. by rewrite (Heq d Hd).
    + eexists. split; [exact Hc|]. rewrite Hone. simpl. split; [lia|done].
Qed.

Lemma buildServiceData_lists svc ports (w : World G) :
  (∀ p, p ∈ ports → is_Some (findServicePort (corev1.Spec_Ports svc) p)) →
  ∃ cs, w_calls (buildServiceData r svc ports w).2 = w_calls w ++ cs
        ∧ (length (filter (λ c, isList c = true) cs) ≤ length ports)%nat
        ∧ (∀ d, (buildServiceData r svc ports w).1 = Ok d →
             length (filter (λ c, isList c = true) cs) = length ports).
Proof.
  intros Hfound. unfold buildServiceData. unfold_M.
  destruct (parseIdleTimeout svc) as [idle|];
    [|exists []; simpl; rewrite app_nil_r; split; [done|split; [lia|done]]].
  assert (Hranges : ∃ res,
    (if decide (0 < length (corev1.Spec_LoadBalancerSourceRanges svc))%nat
     then forRange sourceRangeBody [] (corev1.Spec_LoadBalancerSourceRanges svc)
     else λ w, (Ok [], w)) w = (res, w)).
  { destruct (decide _); [|eauto].
    destruct (sourceRanges_run [] (corev1.Spec_LoadBalancerSourceRanges svc) w)
      as (res & Hres & _). eauto. }
  destruct Hranges as [res ->]. destruct res as [ranges|];
    [|exists []; simpl; rewrite app_nil_r; split; [done|split; [lia|done]]].
  by apply portLoop_lists.
Qed.

(** X11: for a managed Service without conflict, one reconciliation makes at
    most one List call per accepted port, and exactly one per accepted port
    when it returns without error: the slices of a Service with n accepted
    ports are listed n times. *)
Theorem Reconcile_lists_per_port req svc (w : World G) :
  client.GetService (Client r) req = Ok svc →
  shouldManage r svc = true →
  (∀ p, p ∈ getServicePorts svc → Conflicts (w_graph w) req p = false) →
  (length (filter (λ c, isList c = true) (callsSince w (Reconcile r req w).2))
   ≤ length (getServicePorts svc))%nat
  ∧ (∀ res, (Reconcile r req w).1 = Ok res →
       length (filter (λ c, isList c = true) (callsSince w (Reconcile r req w).2))
       = length (getServicePorts svc)).
Proof.
  intros Hget Hmanage Hfree.
  rewrite (Reconcile_managed_free r req svc w Hget Hmanage Hfree).
  destruct (buildServiceData_lists svc (getServicePorts svc) (probed req svc w))
    as (cs & Hcs & Hle & Heq); [apply accepted_port_found|].
  unfold callsSince.
  destruct (buildServiceData r svc (getServicePorts svc) (probed req svc w))
    as [[data|e] w1]; simpl in *.
  - rewrite Hcs, <- !app_assoc, drop_app_length. simpl.
    rewrite filter_cons_False by done.
    rewrite !filter_app, !length_app, lists_probes.
    rewrite !filter_cons_False by done. rewrite filter_nil. simpl.
    rewrite (Heq data eq_refl). split; [lia|intros; lia].
  - rewrite Hcs, <- !app_assoc, drop_app_length. simpl.
    rewrite filter_cons_False by done.
    rewrite !filter_app, !length_app, lists_probes. simpl. split; [lia|done].
Qed.

End ListCalls.

Lemma Reconcile_lists_per_port_witness :
  (length (filter (λ c, isList c = true)
             (callsSince (demo.start registry.empty)
                (Reconcile (L := golib) demo4.settingsCluster (demo.key "multi")
                   (demo.start registry.empty)).2))
   ≤ length (getServicePorts demo4.multi))%nat
  ∧ (∀ res, (Reconcile (L := golib) demo4.settingsCluster (demo.key "multi")
               (demo.start registry.empty)).1 = Ok res →
       length (filter (λ c, isList c = true)
                 (callsSince (demo.start registry.empty)
                    (Reconcile (L := golib) demo4.settingsCluster (demo.key "multi")
                       (demo.start registry.empty)).2))
       = length (getServicePorts demo4.multi)).
Proof.
  apply (Reconcile_lists_per_port (L := golib) demo4.settingsCluster (demo.key "multi")
           demo4.multi (demo.start registry.empty)).
  - reflexivity.
  - reflexivity.
  - intros p _. reflexivity.
Defined.

(** ** Pairs that are reported more than once *)

Lemma replay_lastWrite ws ips k :
  replay ws ips !! k = match lastWrite ws k with
                       | Some b => Some b
                       | None => ips !! k
                       end.
Proof.
  unfold lastWrite. induction ws as [|[k' b'] ws IH] using rev_ind; [done|].
  rewrite replay_snoc, filter_app. destruct (decide (k' = k)) as [->|Hne].
  - rewrite lookup_insert_eq, filter_cons_True by done.
    rewrite filter_nil, last_snoc. done.
  - rewrite lookup_insert_ne by done.
    rewrite filter_cons_False by done. rewrite filter_nil, app_nil_r. done.
Qed.

Section LastWrite.
Context {G : Type} {L : GoLib}.
Variable r : ServiceReconciler.

(** X12: when the slices report the same (address, port) pair several times,
    the occurrence processed last decides: a pair is returned by
    buildEndpoints exactly when the last write to it, in the order in which
    slices, endpoints and addresses are walked, has readiness true. *)
Theorem buildEndpoints_last_write svc port (w : World G) l ws k :
  (buildEndpoints r svc port w).1 = Ok l →
  serviceWrites r svc port = Ok ws →
  k ∈ graph.AddrPort <$> l ↔ lastWrite ws k = Some true.
Proof.
  intros Hl Hws.
  assert (Hk : k ∈ graph.AddrPort <$> l ↔ replay ws ∅ !! k = Some true).
  { rewrite list_elem_of_fmap. split.
    - intros (e & -> & He).
      by apply (buildEndpoints_elem r svc port w l ws e Hl Hws) in He as [He _].
    - intros Hr. exists (mkEndpoint port k). split; [done|].
      by apply (buildEndpoints_elem r svc port w l ws _ Hl Hws). }
  rewrite Hk, replay_lastWrite, lookup_empty.
  destruct (lastWrite ws k); naive_solver.
Qed.

End LastWrite.

Example flappingCluster_endpoints :
  (buildEndpoints (L := golib) demo5.flappingCluster demo.web demo.port80
     (demo.start registry.empty)).1
  = Ok [ {| graph.AddrPort := (netip.Addr4 167772162, 8080);
            graph.Endpoint_Protocol := "TCP" |} ].
Proof. vm_compute. reflexivity. Qed.

Lemma buildEndpoints_last_write_witness :
  (netip.Addr4 167772161, 8080)
    ∈ graph.AddrPort <$>
        [ {| graph.AddrPort := (netip.Addr4 167772162, 8080);
             graph.Endpoint_Protocol := "TCP" |} ]
  ↔ lastWrite
      [ ((netip.Addr4 167772161, 8080), true);
        ((netip.Addr4 167772162, 8080), true);
        ((netip.Addr4 167772161, 8080), false) ]
      (netip.Addr4 167772161, 8080)
    = Some true.
Proof.
  apply (buildEndpoints_last_write (L := golib) demo5.flappingCluster demo.web
           demo.port80 (demo.start registry.empty)).
  - vm_compute. reflexivity.
  - vm_compute. reflexivity.
Defined.

(** ** Which Service a changed EndpointSlice wakes *)

(** X13: for a Service with a non-empty name, findServiceForEndpoint maps an
    object to the one request for that Service exactly when the object is one
    that the List call of buildEndpoints for that Service selects (same
    namespace, service-name label equal to the name); it returns no request
    exactly when the label is missing or empty, and never more than one. *)
Theorem findServiceForEndpoint_routes obj svc :
  corev1.Name svc ≠ "" →
  (findServiceForEndpoint obj = [keyOf svc]
   ↔ selectedBy (corev1.Namespace svc) (corev1.Name svc) obj)
  ∧ (findServiceForEndpoint obj = []
     ↔ metav1.Labels obj !! LabelServiceName = None
       ∨ metav1.Labels obj !! LabelServiceName = Some "")
  ∧ (length (findServiceForEndpoint obj) ≤ 1)%nat.
Proof.
  intros Hname. unfold findServiceForEndpoint, selectedBy, keyOf.
  destruct (metav1.Labels obj !! LabelServiceName) as [n|]; simpl.
  - destruct (String.eqb_spec n "") as [->|Hn]; simpl.
    + split; [|split; [|lia]].
      * split; [done|]. intros [_ [= Hs]]. by rewrite <- Hs in Hname.
      * split; [by right|done].
    + split; [|split; [|lia]].
      * split; [by intros [= -> ->]|by intros [-> [= ->]]].
      * split; [done|]. intros [?|[= ?]]; done.
  - split; [|split; [|lia]].
    + split; [done|]. by intros [_ ?].
    + split; [by left|done].
Qed.

Lemma findServiceForEndpoint_routes_witness :
  (findServiceForEndpoint demo5.webSlice = [keyOf demo.web]
   ↔ selectedBy (corev1.Namespace demo.web) (corev1.Name demo.web) demo5.webSlice)
  ∧ (findServiceForEndpoint demo5.webSlice = []
     ↔ metav1.Labels demo5.webSlice !! LabelServiceName = None
       ∨ metav1.Labels demo5.webSlice !! LabelServiceName = Some "")
  ∧ (length (findServiceForEndpoint demo5.webSlice) ≤ 1)%nat.
Proof.
  apply (findServiceForEndpoint_routes demo5.webSlice demo.web).
  vm_compute. discriminate.
Defined.

Example webSlice_wakes_web :
  findServiceForEndpoint demo5.webSlice = [demo.key "web"].
Proof. vm_compute. reflexivity. Qed.

(** ** The order in which the settings are checked *)

Section Settings.
Context {G : Type} {SG : ServiceGraph G} {L : GoLib}.
Variable r : ServiceReconciler.


Lemma sourceRanges_first_bad acc good bad rest (w : World G) :
  Forall (λ s, is_Some (ParsePrefix s)) good →
  ParsePrefix bad = None →
  forRange sourceRangeBody acc (good ++ bad :: rest) w = (Err (ErrParsePrefix bad), w).
Proof.
  intros Hgood Hbad. revert acc.
  induction Hgood as [|s good [p Hp] _ IH]; intros acc; simpl app.
  - by rewrite forRange_cons, sourceRangeBody_run, Hbad.
  - rewrite forRange_cons, sourceRangeBody_run, Hp. apply IH.
Qed.

(** X15: buildServiceData checks the idle timeout before the source ranges and
    the source ranges in order: when some source range does not parse, the
    error returned is the idle-timeout error if that annotation is malformed,
    and otherwise the error of the first source range that does not parse;
    either way nothing has been read from the cluster. *)
Theorem buildServiceData_error_precedence svc ports good bad rest (w : World G) :
  corev1.Spec_LoadBalancerSourceRanges svc = good ++ bad :: rest →
  Forall (λ s, is_Some (ParsePrefix s)) good →
  ParsePrefix bad = None →
  buildServiceData r svc ports w
  = (Err (if negb (String.eqb (annotation svc idleTimeoutAnnotation) "")
          then match ParseDuration (annotation svc idleTimeoutAnnotation) with
               | Some _ => ErrParsePrefix bad
               | None => ErrParseDuration (annotation svc idleTimeoutAnnotation)
               end
          else ErrParsePrefix bad), w).
Proof.
  intros Hranges Hgood Hbad. unfold buildServiceData, parseIdleTimeout. unfold_M.
  rewrite Hranges.
  assert (Hloop : ∀ w' : World G,
    (if decide (0 < length (good ++ bad :: rest))%nat
     then forRange sourceRangeBody [] (good ++ bad :: rest)
     else λ w, (Ok [], w)) w' = (Err (ErrParsePrefix bad), w')).
  { intros w'. destruct (decide _) as [_|Hlen].
    - by apply sourceRanges_first_bad.
    - rewrite length_app in Hlen. simpl in Hlen. lia. }
  destruct (negb _); [destruct (ParseDuration _)|]; simpl; by rewrite ?Hloop.
Qed.


End Settings.

Lemma buildServiceData_error_precedence_witness :
  buildServiceData (L := golib) demo4.settingsCluster demo4.fenced
    (getServicePorts demo4.fenced) (demo.start registry.empty)
  = (Err (ErrParsePrefix "banana"), demo.start registry.empty).
Proof.
  apply (buildServiceData_error_precedence (L := golib) demo4.settingsCluster
           demo4.fenced (getServicePorts demo4.fenced) ["10.0.0.0/8"] "banana" []
           (demo.start registry.empty)).
  - reflexivity.
  - repeat constructor; vm_compute; eauto.
  - vm_compute. reflexivity.
Defined.

